(** * should_run_job: the CI job-selection filter of .circleci/scripts

    A shallow embedding of [.circleci/scripts/should_run_job.py]: the
    regular expression [RE_MARKER] with a backtracking matcher that follows
    the priorities of Python's [re] module, [finditer], the marker loop, the
    default-set loop, and the three [sys.exit] calls.  Printing and
    exceptions are threaded through a small script monad.

    The command-line argument and the text that [git log] returns are the
    inputs of the model; characters are those of [Ascii], which cover
    everything the pattern tells apart (space, brackets, the letters of the
    two tokens). *)

From Stdlib Require Import Bool Arith List ZArith.
From Stdlib Require Import Ascii String.
Import ListNotations.

Local Open Scope list_scope.
Local Open Scope string_scope.

(** ** Python strings *)

Module Py.

(** [sub in s] on two [str] values: substring containment. *)
Fixpoint str_in (sub s : string) : bool :=
  String.prefix sub s ||
  match s with
  | EmptyString => false
  | String _ s' => str_in sub s'
  end.

(** Truth value of an optional string: [None] and [''] are false. *)
Definition truthy (o : option string) : bool :=
  match o with
  | None => false
  | Some EmptyString => false
  | Some (String _ _) => true
  end.

(** [a or b] on values (not booleans): [a] if it is true, otherwise [b]. *)
Definition or_ (a b : option string) : option string :=
  if truthy a then a else b.

(** [spec == lit], where [spec] may be [None]. *)
Definition eq_str (spec : option string) (lit : string) : bool :=
  match spec with
  | None => false
  | Some s => String.eqb s lit
  end.

End Py.

(** ** A backtracking matcher for the fragment of [re] the script uses *)

Module Re.

(** Single-character items. *)
Inductive item :=
| Lit (c : ascii)                (* a literal character *)
| NotIn (cs : list ascii).       (* a negated set, [^...] *)

Inductive regex :=
| Eps                            (* the empty pattern *)
| One (i : item)
| Plus (i : item)                (* i+, greedy *)
| Seq (a b : regex)
| Alt (a b : regex)              (* a|b, left alternative first *)
| Opt (a : regex)                (* (?:a)?, greedy *)
| Group (n : nat) (a : regex).   (* capturing group number n *)

Definition mem (c : ascii) (cs : list ascii) : bool :=
  existsb (Ascii.eqb c) cs.

Definition admits (i : item) (c : ascii) : bool :=
  match i with
  | Lit x => Ascii.eqb c x
  | NotIn cs => negb (mem c cs)
  end.

(** Capture marks: the text of each group, [None] while the group has not
    taken part in the match. *)
Definition marks := nat -> option string.

Definition no_marks : marks := fun _ => None.

Definition set_mark (n : nat) (t : string) (mk : marks) : marks :=
  fun k => if Nat.eqb k n then Some t else mk k.

Section Matcher.

Variable R : Type.

(** A continuation receives the text consumed so far by the construct, the
    rest of the input and the marks. Backtracking is the [None] answer of
    a continuation: the caller then tries its next choice with the marks it
    had, which is how [re] restores marks. *)
Definition cont := string -> string -> marks -> option R.

(** [i+]: as many characters as possible first, then fewer. *)
Fixpoint plus (i : item) (s : string) (mk : marks) (k : cont) : option R :=
  match s with
  | EmptyString => None
  | String c s' =>
      if admits i c then
        match plus i s' mk (fun t r m => k (String c t) r m) with
        | Some x => Some x
        | None => k (String c EmptyString) s' mk
        end
      else None
  end.

Fixpoint run (r : regex) (s : string) (mk : marks) (k : cont) : option R :=
  match r with
  | Eps => k EmptyString s mk
  | One i =>
      match s with
      | EmptyString => None
      | String c s' =>
          if admits i c then k (String c EmptyString) s' mk else None
      end
  | Plus i => plus i s mk k
  | Seq a b =>
      run a s mk (fun t1 s1 m1 =>
        run b s1 m1 (fun t2 s2 m2 => k (t1 ++ t2) s2 m2))
  | Alt a b =>
      match run a s mk k with
      | Some x => Some x
      | None => run b s mk k
      end
  | Opt a =>
      match run a s mk k with
      | Some x => Some x
      | None => k EmptyString s mk
      end
  | Group n a =>
      run a s mk (fun t s' m => k t s' (set_mark n t m))
  end.

End Matcher.

Arguments plus {R} i s mk k.
Arguments run {R} r s mk k.

(** A match object of a pattern with two groups. *)
Record rematch := MkMatch {
  group0 : string;               (* m.group(0), the matched text *)
  group1 : option string;        (* m.group(1) *)
  group2 : option string         (* m.group(2) *)
}.

(** [pattern.match] anchored at the start of [s]. *)
Definition match_at (r : regex) (s : string) : option rematch :=
  run r s no_marks (fun t _ m => Some (MkMatch t (m 1) (m 2))).

(** [pattern.finditer(s)]: the non-overlapping matches, scanning from left
    to right. [skip] counts the characters of the last match that are still
    to be passed over before the next attempt. *)
Fixpoint scan (r : regex) (skip : nat) (s : string) : list rematch :=
  match s with
  | EmptyString =>
      match skip, match_at r s with
      | O, Some m => [m]
      | _, _ => []
      end
  | String _ s' =>
      match skip with
      | S k => scan r k s'
      | O =>
          match match_at r s with
          | Some m => m :: scan r (String.length (group0 m) - 1) s'
          | None => scan r 0 s'
          end
      end
  end.

Definition finditer (r : regex) (s : string) : list rematch := scan r 0 s.

(** A literal word, character by character. *)
Fixpoint word (w : string) : regex :=
  match w with
  | EmptyString => Eps
  | String c w' => Seq (One (Lit c)) (word w')
  end.

End Re.

(** ** The script *)

Import Re.

(** [[^ \[\]]]: anything but a space or a square bracket. *)
Definition payload_char : item := NotIn [" "; "["; "]"]%char.

(** [RE_MARKER = re.compile(
      r'\[(?:([^ \[\]]+) )?(?:ci|test)(?: ([^ \[\]]+))?\]')] *)
Definition RE_MARKER : regex :=
  Seq (One (Lit "["))
 (Seq (Opt (Seq (Group 1 (Plus payload_char)) (One (Lit " "))))
 (Seq (Alt (word "ci") (word "test"))
 (Seq (Opt (Seq (One (Lit " ")) (Group 2 (Plus payload_char))))
      (One (Lit "]"))))).

(** The default jobs, which run on all pull requests. *)
Definition default_set : list string :=
  [ "pytorch-linux-trusty-py2.7.9";
    "pytorch-linux-xenial-cuda9-cudnn7-py3";
    "pytorch-linux-xenial-py3-clang5-asan";
    "pytorch-linux-trusty-py3.6-gcc5.4";
    "caffe2-py2-mkl-ubuntu16.04";
    "caffe2-py2-cuda9.1-cudnn7-ubuntu16.04";
    "caffe2-onnx-py2-gcc5-ubuntu16.04";
    "caffe2-py2-clang7-ubuntu16.04";
    "caffe2-cmake-cuda9.0-cudnn7-ubuntu16.04";
    "manywheel 2.7mu cpu devtoolset3";
    "caffe2-py2-android-ubuntu16.04";
    "caffe2-py2-system-macos10.13";
    "pytorch-macos-10.13-cuda9.2-cudnn7-py3";
    "pytorch-linux-xenial-py3-clang5-android-ndk-r19c";
    "pytorch-short-perf-test-gpu";
    "pytorch-doc-push" ].

(** *** Effects: standard output and exceptions *)

(** [sys.exit(n)] raises [SystemExit(n)]; [None in s] raises [TypeError]. *)
Inductive exn :=
| SystemExit (code : Z)
| TypeError.

Inductive result (A : Type) :=
| Done (a : A)
| Raised (e : exn).

Arguments Done {A} a.
Arguments Raised {A} e.

(** A computation prints lines and then either returns or raises. *)
Definition script (A : Type) : Type := list string * result A.

Definition ret {A} (a : A) : script A := ([], Done a).

Definition bind {A B} (m : script A) (f : A -> script B) : script B :=
  match m with
  | (out, Done a) => let (out', r) := f a in ((out ++ out')%list, r)
  | (out, Raised e) => (out, Raised e)
  end.

Notation "x <- m ;; k" := (bind m (fun x => k))
  (at level 61, m at next level, right associativity).
Notation "m ;; k" := (bind m (fun _ => k))
  (at level 61, right associativity).

Definition print (line : string) : script unit := ([line], Done tt).

Definition raise {A} (e : exn) : script A := ([], Raised e).

Definition sys_exit {A} (code : Z) : script A := raise (SystemExit code).

(** [for x in xs: body]; a body that returns early is a [continue]. *)
Fixpoint for_each {X} (xs : list X) (body : X -> script unit) : script unit :=
  match xs with
  | [] => ret tt
  | x :: xs' => body x ;; for_each xs' body
  end.

(** [spec in s] where [spec] may be [None]: the left operand of [in] on a
    string must be a string. *)
Definition py_in (spec : option string) (s : string) : script bool :=
  match spec with
  | None => raise TypeError
  | Some sub => ret (Py.str_in sub s)
  end.

(** *** The two loops and the final rejection *)

Section Script.

Variable build_environment : string.

(** The body of [for m in markers]. *)
Definition marker_body (m : rematch) : script unit :=
  if Py.truthy (group1 m) && Py.truthy (group2 m) then
    print ("Unrecognized marker: " ++ group0 m)
  else
    let spec := Py.or_ (group1 m) (group2 m) in
    hit <- py_in spec build_environment ;;
    if hit || Py.eq_str spec "all" then
      print ("Accepting " ++ build_environment
               ++ " due to commit marker " ++ group0 m) ;;
      sys_exit 0%Z
    else ret tt.

(** The body of [for spec in default_set]. *)
Definition default_body (spec : string) : script unit :=
  if Py.str_in spec build_environment then
    print ("Accepting " ++ build_environment ++ " as part of default set") ;;
    sys_exit 0%Z
  else ret tt.

Definition marker_loop (markers : list rematch) : script unit :=
  for_each markers marker_body.

Definition default_loop (defaults : list string) : script unit :=
  for_each defaults default_body.

(** Everything after [markers = RE_MARKER.finditer(commit_msg)]. *)
Definition select (markers : list rematch) (defaults : list string)
  : script unit :=
  marker_loop markers ;;
  default_loop defaults ;;
  print ("Rejecting " ++ build_environment) ;;
  sys_exit 1%Z.

End Script.

(** The script, as a function of its command-line argument, of the commit
    message that [git log] returns and of the default set. *)
Definition should_run_job
    (build_environment commit_msg : string) (defaults : list string)
  : script unit :=
  select build_environment (finditer RE_MARKER commit_msg) defaults.

(** The script with its own [default_set]. *)
Definition main (build_environment commit_msg : string) : script unit :=
  should_run_job build_environment commit_msg default_set.

(** *** Reading a run *)

(** How a run ended: what it raised, if anything. *)
Definition ending {A} (o : script A) : result A := snd o.

(** What a run printed: the argument of each [print] call, in order. *)
Definition stdout {A} (o : script A) : list string := fst o.

Definition accepted {A} (o : script A) : Prop :=
  ending o = Raised (SystemExit 0).

Definition rejected {A} (o : script A) : Prop :=
  ending o = Raised (SystemExit 1).

Definition crashed {A} (o : script A) : Prop :=
  ending o = Raised TypeError.

(** The exit status of the process. [sys.exit(n)] ends it with status [n];
    an exception that nothing catches ([TypeError] here) makes the
    interpreter print a traceback and end with status 1; a script that runs
    to its end exits with status 0. *)
Definition exit_status {A} (o : script A) : Z :=
  match ending o with
  | Raised (SystemExit code) => code
  | Raised TypeError => 1%Z
  | Done _ => 0%Z
  end.

(** What the marker loop does with one match. *)
Inductive kind := Unrecognized | Bare | Hit | Miss.

Definition classify (build_environment : string) (m : rematch) : kind :=
  if Py.truthy (group1 m) && Py.truthy (group2 m) then Unrecognized
  else match Py.or_ (group1 m) (group2 m) with
       | None => Bare
       | Some spec =>
           if Py.str_in spec build_environment || String.eqb spec "all"
           then Hit else Miss
       end.

Definition is_kind (k : kind) (build_environment : string) (m : rematch)
  : Prop := classify build_environment m = k.

(** Some default entry is a substring of the build environment. *)
Definition in_default_set (build_environment : string) (defaults : list string)
  : Prop :=
  Exists (fun spec => Py.str_in spec build_environment = true) defaults.

Definition unrecognized_line (m : rematch) : string :=
  "Unrecognized marker: " ++ group0 m.

Definition marker_line (build_environment : string) (m : rematch) : string :=
  "Accepting " ++ build_environment ++ " due to commit marker " ++ group0 m.

Definition default_line (build_environment : string) : string :=
  "Accepting " ++ build_environment ++ " as part of default set".

Definition reject_line (build_environment : string) : string :=
  "Rejecting " ++ build_environment.

(** The part of the script after the marker loop. *)
Definition fallback (env : string) (defaults : list string) : script unit :=
  default_loop env defaults ;; print (reject_line env) ;; sys_exit 1%Z.

(** [in_default_set] as a test. *)
Definition in_default_setb (env : string) (defaults : list string) : bool :=
  existsb (fun spec => Py.str_in spec env) defaults.

(** The first character of a line tells the kinds of lines apart. *)
Definition head_char (s : string) : option ascii :=
  match s with
  | EmptyString => None
  | String c _ => Some c
  end.

Ltac line_clash H :=
  apply (f_equal head_char) in H; cbn in H; discriminate H.

(** An acceptance line: one of the two lines printed before [sys.exit(0)]. *)
Definition acceptance_line (env line : string) : Prop :=
  line = default_line env \/ exists m, line = marker_line env m.

(** The trace of a run: reports of unrecognized markers, then at most one
    closing line, which fixes how the run ends. *)
Inductive trace (env : string) (ms : list rematch) : script unit -> Prop :=
| T_marker us m :
    incl us ms -> In m ms -> classify env m = Hit ->
    trace env ms
      ((map unrecognized_line us ++ [marker_line env m])%list,
       Raised (SystemExit 0))
| T_default us :
    incl us ms ->
    trace env ms
      ((map unrecognized_line us ++ [default_line env])%list,
       Raised (SystemExit 0))
| T_reject us :
    incl us ms ->
    trace env ms
      ((map unrecognized_line us ++ [reject_line env])%list,
       Raised (SystemExit 1))
| T_crash us m :
    incl us ms -> In m ms -> classify env m = Bare ->
    trace env ms (map unrecognized_line us, Raised TypeError).

(** ** What the pattern can match *)

(** Every character of [t] passes the test [f]. *)
Fixpoint all_chars (f : ascii -> bool) (t : string) : bool :=
  match t with
  | EmptyString => true
  | String c t' => f c && all_chars f t'
  end.

(** [matches r mk t mk']: the pattern [r] can match exactly the text [t],
    taking the marks from [mk] to [mk']. Priorities play no part here. *)
Inductive matches : regex -> marks -> string -> marks -> Prop :=
| M_Eps mk : matches Eps mk EmptyString mk
| M_One i c mk :
    admits i c = true -> matches (One i) mk (String c EmptyString) mk
| M_Plus i t mk :
    t <> EmptyString -> all_chars (admits i) t = true ->
    matches (Plus i) mk t mk
| M_Seq a b mk t1 m1 t2 m2 :
    matches a mk t1 m1 -> matches b m1 t2 m2 ->
    matches (Seq a b) mk (t1 ++ t2) m2
| M_AltL a b mk t mk' : matches a mk t mk' -> matches (Alt a b) mk t mk'
| M_AltR a b mk t mk' : matches b mk t mk' -> matches (Alt a b) mk t mk'
| M_OptSome a mk t mk' : matches a mk t mk' -> matches (Opt a) mk t mk'
| M_OptNone a mk : matches (Opt a) mk EmptyString mk
| M_Group n a mk t mk' :
    matches a mk t mk' -> matches (Group n a) mk t (set_mark n t mk').

(** A marker payload: a non-empty run of characters that are neither a
    space nor a square bracket. *)
Definition payload (t : string) : Prop :=
  t <> EmptyString /\ all_chars (admits payload_char) t = true.

Definition payload_or_none (g : option string) : Prop :=
  match g with
  | Some t => payload t
  | None => True
  end.

(** The text of group 1 and its space, if the group took part. *)
Definition before_token (g : option string) : string :=
  match g with
  | Some t => t ++ " "
  | None => ""
  end.

(** The space and the text of group 2, if the group took part. *)
Definition after_token (g : option string) : string :=
  match g with
  | Some t => " " ++ t
  | None => ""
  end.

(** The text of a marker with the given groups around the token. *)
Definition marker_text (g1 : option string) (token : string)
    (g2 : option string) : string :=
  "[" ++ before_token g1 ++ token ++ after_token g2 ++ "]".

(** The shape of every match of [RE_MARKER]. *)
Definition marker_shaped (m : rematch) : Prop :=
  exists token,
    (token = "ci" \/ token = "test") /\
    group0 m = marker_text (group1 m) token (group2 m) /\
    payload_or_none (group1 m) /\
    payload_or_none (group2 m).

(** Anything but an opening bracket. *)
Definition not_open (c : ascii) : bool := negb (Ascii.eqb c "[").

(** The next [skip] characters of [s] exist and hold no opening bracket:
    what [scan] knows of the characters it passes over after a match. *)
Definition passes_over (skip : nat) (s : string) : Prop :=
  exists t rest,
    s = t ++ rest /\ String.length t = skip /\ all_chars not_open t = true.

(** How the marker loop ends on a sequence of matches: with the exception
    raised at the first match that accepts or has no payload, or by running
    to its end ([None]). *)
Fixpoint marker_verdict (env : string) (ms : list rematch) : option exn :=
  match ms with
  | [] => None
  | m :: ms' =>
      match classify env m with
      | Hit => Some (SystemExit 0)
      | Bare => Some TypeError
      | Unrecognized | Miss => marker_verdict env ms'
      end
  end.

(** A well-formed marker: exactly one group took part; its text is the
    payload. *)
Definition well_formed (m : rematch) (spec : string) : Prop :=
  (group1 m = Some spec /\ group2 m = None) \/
  (group1 m = None /\ group2 m = Some spec).

(** A well-formed marker whose payload is a substring of the build
    environment or the word [all]. *)
Definition marker_accepts (env : string) (m : rematch) : Prop :=
  exists spec,
    well_formed m spec /\ (Py.str_in spec env = true \/ spec = "all").

(** The message has no marker without payload. *)
Definition no_bare_marker (msg : string) : Prop :=
  Py.str_in "[ci]" msg = false /\ Py.str_in "[test]" msg = false.

(** ** Further vocabulary for the marker loop *)

(** A marker without payload: neither group took part. *)
Definition bare (m : rematch) : Prop :=
  group1 m = None /\ group2 m = None.

(** The test of the first [if] of the marker loop. *)
Definition both_groups (m : rematch) : bool :=
  Py.truthy (group1 m) && Py.truthy (group2 m).

(** The reports printed while the loop runs through [ms]. *)
Definition reports (ms : list rematch) : list string :=
  map unrecognized_line (filter both_groups ms).

(** ** Pieces of the marker pattern *)

(** [s] without the prefix [w], if it starts with [w]. *)
Fixpoint strip (w s : string) : option string :=
  match w with
  | EmptyString => Some s
  | String c w' =>
      match s with
      | EmptyString => None
      | String d s' => if Ascii.eqb d c then strip w' s' else None
      end
  end.

(** [s] does not start with a character that [i] admits. *)
Definition stops (i : item) (s : string) : Prop :=
  match s with
  | EmptyString => True
  | String c _ => admits i c = false
  end.

(** [(?:ci|test)] *)
Definition TOKEN : regex := Alt (word "ci") (word "test").

(** [(?: ([^ \[\]]+))?\]]: what follows the token. *)
Definition CLOSE : regex :=
  Seq (Opt (Seq (One (Lit " ")) (Group 2 (Plus payload_char))))
      (One (Lit "]")).

(** [(?:([^ \[\]]+) )?]: what comes before the token. *)
Definition OPEN : regex :=
  Opt (Seq (Group 1 (Plus payload_char)) (One (Lit " "))).

(** ** The pattern read as a parser *)

(** The longest prefix of [s] made of characters that pass [f], and what
    follows it. *)
Fixpoint span (f : ascii -> bool) (s : string) : string * string :=
  match s with
  | EmptyString => (EmptyString, EmptyString)
  | String c s' =>
      if f c then let (p, r) := span f s' in (String c p, r)
      else (EmptyString, s)
  end.

(** What [CLOSE] reads at the start of [s]: its text, group 2 and the rest
    of the input. *)
Definition close_at (s : string) : option (string * option string * string) :=
  match s with
  | EmptyString => None
  | String c s' =>
      if Ascii.eqb c "]" then Some ("]", None, s')
      else if Ascii.eqb c " " then
        match span (admits payload_char) s' with
        | (String _ _ as q, String d rest) =>
            if Ascii.eqb d "]" then Some (" " ++ q ++ "]", Some q, rest)
            else None
        | _ => None
        end
      else None
  end.

(** What a given token followed by [CLOSE] reads at the start of [s]. *)
Definition word_close_at (w s : string)
  : option (string * option string * string) :=
  match strip w s with
  | Some s' =>
      match close_at s' with
      | Some (t, g2, rest) => Some (w ++ t, g2, rest)
      | None => None
      end
  | None => None
  end.

(** What [TOKEN] followed by [CLOSE] reads at the start of [s]. *)
Definition token_at (s : string) : option (string * option string * string) :=
  match word_close_at "ci" s with
  | Some x => Some x
  | None => word_close_at "test" s
  end.

(** The marker at the start of [s], read by hand: group 1 and its space
    first if that leads to a marker, the token at once otherwise. *)
Definition marker_at (s : string) : option rematch :=
  match s with
  | EmptyString => None
  | String c s0 =>
      if Ascii.eqb c "[" then
        let with_group1 :=
          match span (admits payload_char) s0 with
          | (String _ _ as p, String d r) =>
              if Ascii.eqb d " " then
                match token_at r with
                | Some (t, g2, _) =>
                    Some (MkMatch ("[" ++ p ++ " " ++ t) (Some p) g2)
                | None => None
                end
              else None
          | _ => None
          end in
        match with_group1 with
        | Some m => Some m
        | None =>
            match token_at s0 with
            | Some (t, g2, _) => Some (MkMatch ("[" ++ t) None g2)
            | None => None
            end
        end
      else None
  end.

(** The two tokens. *)
Definition is_token (w : string) : Prop := w = "ci" \/ w = "test".

(** The marks after [CLOSE]. *)
Definition close_marks (g2 : option string) (mk : marks) : marks :=
  match g2 with
  | Some q => set_mark 2 q mk
  | None => mk
  end.

(** A reading of [CLOSE] with more input after it. *)
Definition extend (x : string) (c : string * option string * string)
  : string * option string * string :=
  let '(t, g2, rest) := c in (t, g2, rest ++ x).

(** * Properties *)

(** ** The script monad *)

Lemma ending_bind {A B} (m : script A) (f : A -> script B) :
  ending (bind m f) =
  match ending m with
  | Done a => ending (f a)
  | Raised e => Raised e
  end.
Proof.
  destruct m as [out [a | e]]; simpl; [destruct (f a) |]; reflexivity.
Qed.

Lemma bind_ret_l {A B} (a : A) (f : A -> script B) : bind (ret a) f = f a.
Proof. unfold bind, ret. destruct (f a); reflexivity. Qed.

(** ** One iteration of each loop *)

Lemma marker_body_classify (env : string) (m : rematch) :
  marker_body env m =
  match classify env m with
  | Unrecognized => print (unrecognized_line m)
  | Bare => raise TypeError
  | Hit => ([marker_line env m], Raised (SystemExit 0))
  | Miss => ret tt
  end.
Proof.
  unfold marker_body, classify.
  destruct (Py.truthy (group1 m) && Py.truthy (group2 m)); [reflexivity |].
  destruct (Py.or_ (group1 m) (group2 m)) as [spec |]; [| reflexivity].
  simpl py_in. rewrite bind_ret_l. unfold Py.eq_str.
  destruct (Py.str_in spec env || String.eqb spec "all"); reflexivity.
Qed.

Lemma default_body_spec (env spec : string) :
  default_body env spec =
  if Py.str_in spec env
  then ([default_line env], Raised (SystemExit 0))
  else ret tt.
Proof.
  unfold default_body. destruct (Py.str_in spec env); reflexivity.
Qed.

(** ** The part of the script after the marker loop *)

Lemma in_default_set_reflect (env : string) (defaults : list string) :
  in_default_setb env defaults = true <-> in_default_set env defaults.
Proof.
  unfold in_default_setb, in_default_set.
  rewrite existsb_exists, Exists_exists. reflexivity.
Qed.

Lemma fallback_spec (env : string) (defaults : list string) :
  fallback env defaults =
  if in_default_setb env defaults
  then ([default_line env], Raised (SystemExit 0))
  else ([reject_line env], Raised (SystemExit 1)).
Proof.
  unfold fallback, default_loop.
  induction defaults as [| d ds IH]; [reflexivity |].
  cbn [for_each in_default_setb existsb].
  rewrite default_body_spec.
  destruct (Py.str_in d env); cbn [orb]; [reflexivity |].
  rewrite bind_ret_l. exact IH.
Qed.

(** ** The marker loop, one match at a time *)

Lemma select_nil (env : string) (defaults : list string) :
  select env [] defaults = fallback env defaults.
Proof.
  unfold select, marker_loop. cbn [for_each].
  rewrite bind_ret_l. reflexivity.
Qed.

Lemma select_cons (env : string) (m : rematch) (ms : list rematch)
    (defaults : list string) :
  select env (m :: ms) defaults =
  match classify env m with
  | Unrecognized =>
      (unrecognized_line m :: stdout (select env ms defaults),
       ending (select env ms defaults))
  | Bare => ([], Raised TypeError)
  | Hit => ([marker_line env m], Raised (SystemExit 0))
  | Miss => select env ms defaults
  end.
Proof.
  unfold select, marker_loop. cbn [for_each].
  rewrite marker_body_classify.
  destruct (classify env m).
  - unfold print. cbn [bind].
    destruct (for_each ms (marker_body env)) as [out [[] | e]]; cbn [bind].
    + destruct (bind (default_loop env defaults) _) as [out' r]. reflexivity.
    + reflexivity.
  - reflexivity.
  - reflexivity.
  - rewrite bind_ret_l. reflexivity.
Qed.

Lemma bind_assoc {A B C} (m : script A) (f : A -> script B)
    (g : B -> script C) :
  bind (bind m f) g = bind m (fun a => bind (f a) g).
Proof.
  destruct m as [out [a | e]]; cbn [bind]; [| reflexivity].
  destruct (f a) as [out1 [b | e]]; cbn [bind]; [| reflexivity].
  destruct (g b) as [out2 r]. rewrite app_assoc. reflexivity.
Qed.

Lemma for_each_app {X} (xs ys : list X) (body : X -> script unit) :
  for_each (xs ++ ys)%list body = for_each xs body ;; for_each ys body.
Proof.
  induction xs as [| x xs IH]; cbn [for_each app].
  - rewrite bind_ret_l. reflexivity.
  - rewrite IH, bind_assoc. reflexivity.
Qed.

(** The loop over a concatenation: the first part, then the rest of the
    script on the second part. *)
Lemma select_app (env : string) (ms1 ms2 : list rematch)
    (defaults : list string) :
  select env (ms1 ++ ms2)%list defaults =
  marker_loop env ms1 ;; select env ms2 defaults.
Proof.
  unfold select, marker_loop. rewrite for_each_app, bind_assoc. reflexivity.
Qed.

(** ** How a run ends *)

Lemma trace_cons_miss env m ms o :
  trace env ms o -> trace env (m :: ms) o.
Proof.
  intros [us h Hus Hh Hk | us Hus | us Hus | us h Hus Hh Hk].
  - apply T_marker; [apply incl_tl; exact Hus | right; exact Hh | exact Hk].
  - apply T_default. apply incl_tl; exact Hus.
  - apply T_reject. apply incl_tl; exact Hus.
  - apply T_crash with h;
      [apply incl_tl; exact Hus | right; exact Hh | exact Hk].
Qed.

Lemma trace_cons_unrecognized env m ms o :
  trace env ms o ->
  trace env (m :: ms) (unrecognized_line m :: stdout o, ending o).
Proof.
  assert (Hin : forall us, incl us ms -> incl (m :: us) (m :: ms)).
  { intros us Hus. apply incl_cons; [left; reflexivity | apply incl_tl, Hus]. }
  intros [us h Hus Hh Hk | us Hus | us Hus | us h Hus Hh Hk];
    cbn [stdout ending fst snd].
  - apply (T_marker env (m :: ms) (m :: us) h);
      [apply Hin, Hus | right; exact Hh | exact Hk].
  - apply (T_default env (m :: ms) (m :: us)). apply Hin, Hus.
  - apply (T_reject env (m :: ms) (m :: us)). apply Hin, Hus.
  - apply (T_crash env (m :: ms) (m :: us) h);
      [apply Hin, Hus | right; exact Hh | exact Hk].
Qed.

Lemma select_trace (env : string) (ms : list rematch)
    (defaults : list string) :
  trace env ms (select env ms defaults).
Proof.
  induction ms as [| m ms IH].
  - rewrite select_nil, fallback_spec.
    destruct (in_default_setb env defaults).
    + apply (T_default env [] []). apply incl_refl.
    + apply (T_reject env [] []). apply incl_refl.
  - rewrite select_cons. destruct (classify env m) eqn:Hk.
    + apply trace_cons_unrecognized, IH.
    + apply (T_crash env (m :: ms) [] m);
        [apply incl_nil_l | left; reflexivity | exact Hk].
    + apply (T_marker env (m :: ms) [] m);
        [apply incl_nil_l | left; reflexivity | exact Hk].
    + apply trace_cons_miss, IH.
Qed.

(** The script never falls off its end: it raises [SystemExit] with status
    0 or 1, or [TypeError]. *)
Lemma select_ends (env : string) (ms : list rematch) (defaults : list string) :
  accepted (select env ms defaults) \/
  rejected (select env ms defaults) \/
  crashed (select env ms defaults).
Proof.
  destruct (select_trace env ms defaults); unfold accepted, rejected, crashed;
    cbn; auto.
Qed.

Lemma last_line_unrecognized (us : list rematch) (out : list string)
    (line : string) :
  map unrecognized_line us = (out ++ [line])%list ->
  exists u, line = unrecognized_line u.
Proof.
  induction us as [| u us' _] using rev_ind.
  - destruct out; discriminate.
  - rewrite map_app. cbn [map]. intros H.
    apply app_inj_tail in H. exists u. symmetry. apply H.
Qed.

(** ** Exit status and printed lines *)

Lemma trace_exit_lines (env : string) (ms : list rematch) (o : script unit) :
  trace env ms o ->
  (accepted o <->
     exists out line, stdout o = (out ++ [line])%list /\
                      acceptance_line env line) /\
  (rejected o <-> exists out, stdout o = (out ++ [reject_line env])%list) /\
  (forall code, ending o = Raised (SystemExit code) ->
     code = 0%Z \/ code = 1%Z).
Proof.
  intros [us h Hus Hh Hk | us Hus | us Hus | us h Hus Hh Hk];
    unfold accepted, rejected; cbn [stdout ending fst snd];
    (split; [| split]).
  - split; [intros _ | reflexivity].
    exists (map unrecognized_line us), (marker_line env h).
    split; [reflexivity | right; exists h; reflexivity].
  - split; [discriminate |]. intros [out H].
    apply app_inj_tail in H. destruct H as [_ H]. line_clash H.
  - intros code H. injection H as <-. left; reflexivity.
  - split; [intros _ | reflexivity].
    exists (map unrecognized_line us), (default_line env).
    split; [reflexivity | left; reflexivity].
  - split; [discriminate |]. intros [out H].
    apply app_inj_tail in H. destruct H as [_ H]. line_clash H.
  - intros code H. injection H as <-. left; reflexivity.
  - split; [discriminate |]. intros [out [line [H Hline]]].
    apply app_inj_tail in H. destruct H as [_ <-].
    destruct Hline as [H | [m H]]; line_clash H.
  - split; [intros _ | reflexivity].
    exists (map unrecognized_line us). reflexivity.
  - intros code H. injection H as <-. right; reflexivity.
  - split; [discriminate |]. intros [out [line [H Hline]]].
    apply last_line_unrecognized in H. destruct H as [u ->].
    destruct Hline as [H | [m H]]; line_clash H.
  - split; [discriminate |]. intros [out H].
    apply last_line_unrecognized in H. destruct H as [u H]. line_clash H.
  - discriminate.
Qed.

(** The three [sys.exit] calls: [SystemExit(0)] is raised exactly when the
    last line printed is an acceptance reason (commit marker or default
    set), [SystemExit(1)] exactly when it is the rejection line, and
    [sys.exit] is never called with another status. *)
Lemma sys_exit_codes_and_last_line
    (build_environment commit_msg : string) (defaults : list string) :
  (accepted (should_run_job build_environment commit_msg defaults) <->
     exists out line,
       stdout (should_run_job build_environment commit_msg defaults)
         = (out ++ [line])%list /\
       acceptance_line build_environment line) /\
  (rejected (should_run_job build_environment commit_msg defaults) <->
     exists out,
       stdout (should_run_job build_environment commit_msg defaults)
         = (out ++ [reject_line build_environment])%list) /\
  (forall code,
     ending (should_run_job build_environment commit_msg defaults)
       = Raised (SystemExit code) ->
     code = 0%Z \/ code = 1%Z).
Proof.
  unfold should_run_job.
  apply trace_exit_lines with (ms := finditer RE_MARKER commit_msg).
  apply select_trace.
Qed.

(** ** A message without markers *)

(** C5. When the commit message has no match of the marker pattern and some
    entry of the default set is a substring of the build environment, the
    script prints the default-set acceptance line, and only it, and exits
    with status 0. *)
Theorem C5_default_set_accepts_without_markers
    (build_environment commit_msg : string) (defaults : list string) :
  finditer RE_MARKER commit_msg = [] ->
  in_default_set build_environment defaults ->
  should_run_job build_environment commit_msg defaults =
    ([default_line build_environment], Raised (SystemExit 0)).
Proof.
  intros Hnone Hin. unfold should_run_job.
  rewrite Hnone, select_nil, fallback_spec.
  apply in_default_set_reflect in Hin. rewrite Hin. reflexivity.
Qed.

Lemma C5_witness :
  finditer RE_MARKER "fix bug" = [] /\
  in_default_set "pytorch-linux-xenial-cuda9-cudnn7-py3" default_set /\
  should_run_job "pytorch-linux-xenial-cuda9-cudnn7-py3" "fix bug" default_set
  = (["Accepting pytorch-linux-xenial-cuda9-cudnn7-py3 as part of default set"],
     Raised (SystemExit 0)).
Proof.
  assert (Hin : in_default_set "pytorch-linux-xenial-cuda9-cudnn7-py3"
                  default_set).
  { apply in_default_set_reflect. vm_compute. reflexivity. }
  split; [reflexivity | split; [exact Hin |]].
  apply (C5_default_set_accepts_without_markers
           "pytorch-linux-xenial-cuda9-cudnn7-py3" "fix bug" default_set).
  - vm_compute. reflexivity.
  - exact Hin.
Defined.

(** ** Matches with both groups *)

(** C3 (as the code has it). A match with both groups non-empty is reported
    and skipped: its iteration prints the "Unrecognized marker" line and
    goes on to the next match, so the rest of the script runs as it would
    without this match, and the whole run ends as it would on the sequence
    of matches without this one. *)
Theorem C3_unrecognized_marker_is_skipped
    (build_environment commit_msg : string) (defaults : list string)
    (before after : list rematch) (m : rematch) :
  finditer RE_MARKER commit_msg = (before ++ m :: after)%list ->
  Py.truthy (group1 m) = true ->
  Py.truthy (group2 m) = true ->
  marker_body build_environment m = print (unrecognized_line m) /\
  select build_environment (m :: after) defaults =
    (unrecognized_line m :: stdout (select build_environment after defaults),
     ending (select build_environment after defaults)) /\
  ending (should_run_job build_environment commit_msg defaults) =
    ending (select build_environment (before ++ after)%list defaults).
Proof.
  intros Hms H1 H2.
  assert (Hk : classify build_environment m = Unrecognized).
  { unfold classify. rewrite H1, H2. reflexivity. }
  assert (Hcons :
    select build_environment (m :: after) defaults =
    (unrecognized_line m :: stdout (select build_environment after defaults),
     ending (select build_environment after defaults))).
  { rewrite select_cons, Hk. reflexivity. }
  split; [| split].
  - rewrite marker_body_classify, Hk. reflexivity.
  - exact Hcons.
  - unfold should_run_job. rewrite Hms, !select_app, !ending_bind, Hcons.
    reflexivity.
Qed.

Lemma C3_witness :
  finditer RE_MARKER "[foo ci bar] [test all]" =
    ([] ++ MkMatch "[foo ci bar]" (Some "foo") (Some "bar")
        :: [MkMatch "[test all]" None (Some "all")])%list /\
  Py.truthy (Some "foo") = true /\
  Py.truthy (Some "bar") = true /\
  marker_body "some-new-job" (MkMatch "[foo ci bar]" (Some "foo") (Some "bar"))
    = print "Unrecognized marker: [foo ci bar]" /\
  ending (should_run_job "some-new-job" "[foo ci bar] [test all]" []) =
    ending (select "some-new-job" [MkMatch "[test all]" None (Some "all")] []).
Proof.
  pose proof (C3_unrecognized_marker_is_skipped
                "some-new-job" "[foo ci bar] [test all]" [] []
                [MkMatch "[test all]" None (Some "all")]
                (MkMatch "[foo ci bar]" (Some "foo") (Some "bar"))) as H.
  destruct H as [Hbody [_ Hend]];
    [vm_compute; reflexivity | reflexivity | reflexivity |].
  split; [vm_compute; reflexivity |].
  split; [reflexivity | split; [reflexivity |]].
  split; [exact Hbody | exact Hend].
Defined.

(** C3 (as stated). Taking the text of an unrecognized marker out of the
    message can change the decision: in ["[ci [a ci b]all]"] the only match
    is ["[a ci b]"], with both groups, and the job is rejected; without
    that text the message is ["[ci all]"], a marker that accepts. *)
Lemma C3_marker_text_removal_changes_decision :
  finditer RE_MARKER ("[ci " ++ "[a ci b]" ++ "all]") =
    [MkMatch "[a ci b]" (Some "a") (Some "b")] /\
  rejected (should_run_job "some-new-job" ("[ci " ++ "[a ci b]" ++ "all]") [])
  /\
  accepted (should_run_job "some-new-job" ("[ci " ++ "all]") []) /\
  ending (should_run_job "some-new-job" ("[ci " ++ "[a ci b]" ++ "all]") [])
    <> ending (should_run_job "some-new-job" ("[ci " ++ "all]") []).
Proof.
  repeat split; try (vm_compute; reflexivity).
  vm_compute. discriminate.
Qed.

(** ** Strings *)

Lemma append_assoc (a b c : string) : (a ++ b) ++ c = a ++ b ++ c.
Proof. induction a as [| x a IH]; cbn; [| rewrite IH]; reflexivity. Qed.

(** ** The matcher only returns what the pattern can match *)

Lemma plus_sound {R} (i : item) (s : string) (mk : marks) (k : cont R)
    (x : R) :
  plus i s mk k = Some x ->
  exists t s',
    s = t ++ s' /\ t <> "" /\ all_chars (admits i) t = true /\
    k t s' mk = Some x.
Proof.
  revert k. induction s as [| c s IH]; intros k; cbn [plus]; [discriminate |].
  destruct (admits i c) eqn:Hc; [| discriminate].
  destruct (plus i s mk (fun t r m => k (String c t) r m)) as [y |] eqn:Hrec.
  - intros [= ->]. apply IH in Hrec.
    destruct Hrec as [t [s' [-> [_ [Hall Hk]]]]].
    exists (String c t), s'. cbn [all_chars]. rewrite Hc, Hall.
    repeat split; [discriminate | exact Hk].
  - intros Hk. exists (String c ""), s. cbn [all_chars]. rewrite Hc.
    repeat split; [discriminate | exact Hk].
Qed.

Lemma run_sound {R} (r : regex) (s : string) (mk : marks) (k : cont R)
    (x : R) :
  run r s mk k = Some x ->
  exists t s' mk',
    s = t ++ s' /\ matches r mk t mk' /\ k t s' mk' = Some x.
Proof.
  revert s mk k.
  induction r as [| i | i | a IHa b IHb | a IHa b IHb | a IHa | n a IHa];
    intros s mk k; cbn [run].
  - intros Hk. exists "", s, mk. repeat split; [constructor | exact Hk].
  - destruct s as [| c s]; [discriminate |].
    destruct (admits i c) eqn:Hc; [| discriminate].
    intros Hk. exists (String c ""), s, mk.
    repeat split; [constructor; exact Hc | exact Hk].
  - intros H. apply plus_sound in H.
    destruct H as [t [s' [-> [Hne [Hall Hk]]]]].
    exists t, s', mk. repeat split; [constructor; assumption | exact Hk].
  - intros H. apply IHa in H. destruct H as [t1 [s1 [m1 [-> [Ha H]]]]].
    apply IHb in H. destruct H as [t2 [s2 [m2 [-> [Hb Hk]]]]].
    exists (t1 ++ t2), s2, m2. rewrite append_assoc.
    repeat split; [econstructor; eassumption | exact Hk].
  - destruct (run a s mk k) as [y |] eqn:Hleft.
    + intros [= ->]. apply IHa in Hleft.
      destruct Hleft as [t [s' [mk' [-> [Ha Hk]]]]].
      exists t, s', mk'. repeat split; [apply M_AltL; exact Ha | exact Hk].
    + intros H. apply IHb in H.
      destruct H as [t [s' [mk' [-> [Hb Hk]]]]].
      exists t, s', mk'. repeat split; [apply M_AltR; exact Hb | exact Hk].
  - destruct (run a s mk k) as [y |] eqn:Htaken.
    + intros [= ->]. apply IHa in Htaken.
      destruct Htaken as [t [s' [mk' [-> [Ha Hk]]]]].
      exists t, s', mk'. repeat split; [apply M_OptSome; exact Ha | exact Hk].
    + intros Hk. exists "", s, mk. repeat split; [apply M_OptNone | exact Hk].
  - intros H. apply IHa in H. destruct H as [t [s' [mk' [-> [Ha Hk]]]]].
    exists t, s', (set_mark n t mk').
    repeat split; [constructor; exact Ha | exact Hk].
Qed.

Lemma match_at_sound (r : regex) (s : string) (m : rematch) :
  match_at r s = Some m ->
  exists rest mk',
    s = group0 m ++ rest /\ matches r no_marks (group0 m) mk' /\
    group1 m = mk' 1 /\ group2 m = mk' 2.
Proof.
  unfold match_at. intros H. apply run_sound in H.
  destruct H as [t [s' [mk' [-> [Hm [= <-]]]]]].
  exists s', mk'. cbn. repeat split. exact Hm.
Qed.

(** Every match that [finditer] returns is a match at some position. *)
Lemma scan_matches (r : regex) (skip : nat) (s : string) (m : rematch) :
  In m (scan r skip s) ->
  exists before s', s = before ++ s' /\ match_at r s' = Some m.
Proof.
  revert skip. induction s as [| c s IH]; intros skip; cbn [scan].
  - destruct skip; [| intros []].
    destruct (match_at r "") as [m' |] eqn:Hm; [| intros []].
    intros [<- | []]. exists "", "". split; [reflexivity | exact Hm].
  - destruct skip as [| skip].
    + destruct (match_at r (String c s)) as [m' |] eqn:Hm.
      * intros [<- | Hin].
        -- exists "", (String c s). split; [reflexivity | exact Hm].
        -- apply IH in Hin. destruct Hin as [before [s' [-> Hs']]].
           exists (String c before), s'. split; [reflexivity | exact Hs'].
      * intros Hin. apply IH in Hin. destruct Hin as [before [s' [-> Hs']]].
        exists (String c before), s'. split; [reflexivity | exact Hs'].
    + intros Hin. apply IH in Hin. destruct Hin as [before [s' [-> Hs']]].
      exists (String c before), s'. split; [reflexivity | exact Hs'].
Qed.

(** ** [finditer] resumes where the last match ended *)

Lemma scan_skip (r : regex) (t s : string) :
  scan r (String.length t) (t ++ s) = scan r 0 s.
Proof. induction t as [| c t IH]; [reflexivity | exact IH]. Qed.

Lemma finditer_no_match (r : regex) (c : ascii) (s : string) :
  match_at r (String c s) = None ->
  finditer r (String c s) = finditer r s.
Proof. intros H. unfold finditer. cbn [scan]. rewrite H. reflexivity. Qed.

Lemma finditer_match (r : regex) (s rest : string) (m : rematch) :
  match_at r s = Some m ->
  group0 m <> "" ->
  s = group0 m ++ rest ->
  finditer r s = m :: finditer r rest.
Proof.
  intros Hm Hne Hs. unfold finditer.
  destruct (group0 m) as [| c t] eqn:Ht; [contradiction Hne; reflexivity |].
  subst s. cbn [append scan] in *. rewrite Hm, Ht.
  cbn [String.length]. rewrite Nat.sub_succ, Nat.sub_0_r, scan_skip.
  reflexivity.
Qed.

(** ** The shape of a marker *)

Lemma admits_Lit (c x : ascii) : admits (Lit x) c = true -> c = x.
Proof. cbn. apply Ascii.eqb_eq. Qed.

Ltac invert_matches :=
  repeat match goal with
  | H : matches Eps _ _ _ |- _ => inversion H; subst; clear H
  | H : matches (One _) _ _ _ |- _ => inversion H; subst; clear H
  | H : matches (Plus _) _ _ _ |- _ => inversion H; subst; clear H
  | H : matches (Seq _ _) _ _ _ |- _ => inversion H; subst; clear H
  | H : matches (Alt _ _) _ _ _ |- _ => inversion H; subst; clear H
  | H : matches (Opt _) _ _ _ |- _ => inversion H; subst; clear H
  | H : matches (Group _ _) _ _ _ |- _ => inversion H; subst; clear H
  | H : admits (Lit _) _ = true |- _ => apply admits_Lit in H; subst
  end.

Lemma RE_MARKER_matches (t : string) (mk' : marks) :
  matches RE_MARKER no_marks t mk' ->
  exists token,
    (token = "ci" \/ token = "test") /\
    t = marker_text (mk' 1) token (mk' 2) /\
    payload_or_none (mk' 1) /\
    payload_or_none (mk' 2).
Proof.
  unfold RE_MARKER. cbn [word]. intros H. invert_matches;
    unfold marker_text; cbn [set_mark no_marks Nat.eqb before_token
                               after_token payload_or_none];
    first [ exists "ci"; split; [left; reflexivity | split; [reflexivity |]]
          | exists "test";
            split; [right; reflexivity | split; [reflexivity |]] ];
    unfold payload; auto.
Qed.

(** ** Substring containment *)

Lemma prefix_iff (sub s : string) :
  String.prefix sub s = true <-> exists rest, s = sub ++ rest.
Proof.
  revert s. induction sub as [| c sub IH]; intros s.
  - destruct s; cbn; (split; [intros _; eexists; reflexivity | reflexivity]).
  - destruct s as [| d s]; cbn [String.prefix].
    + split; [discriminate | intros [rest H]; discriminate H].
    + destruct (ascii_dec c d) as [<- | Hcd].
      * rewrite IH. split; intros [rest H]; exists rest.
        -- cbn. rewrite H. reflexivity.
        -- cbn in H. injection H as ->. reflexivity.
      * split; [discriminate |]. intros [rest H]. cbn in H.
        injection H as -> _. contradiction Hcd. reflexivity.
Qed.

(** [str_in sub s] holds exactly when [sub] occurs somewhere in [s]. *)
Lemma str_in_iff (sub s : string) :
  Py.str_in sub s = true <-> exists before after, s = before ++ sub ++ after.
Proof.
  induction s as [| c s IH]; cbn [Py.str_in]; rewrite orb_true_iff, prefix_iff.
  - split.
    + intros [[rest H] | H]; [| discriminate]. exists "", rest. exact H.
    + intros [before [after H]]. left. exists after.
      destruct before; [exact H | discriminate].
  - rewrite IH. split.
    + intros [[rest H] | [before [after H]]].
      * exists "", rest. exact H.
      * exists (String c before), after. cbn. rewrite H. reflexivity.
    + intros [[| d before] [after H]].
      * left. exists after. exact H.
      * right. cbn in H. injection H as -> ->. exists before, after.
        reflexivity.
Qed.

Lemma str_in_empty (sub : string) :
  sub <> "" -> Py.str_in sub "" = false.
Proof. destruct sub; [contradiction | reflexivity]. Qed.

Lemma str_in_middle (before sub after : string) :
  Py.str_in sub (before ++ sub ++ after) = true.
Proof. apply str_in_iff. exists before, after. reflexivity. Qed.

Lemma str_in_trans (a b c : string) :
  Py.str_in a b = true -> Py.str_in b c = true -> Py.str_in a c = true.
Proof.
  rewrite !str_in_iff. intros [p [q ->]] [p' [q' ->]].
  exists (p' ++ p), (q ++ q'). rewrite !append_assoc. reflexivity.
Qed.

(** ** Every match is a marker *)

Lemma match_at_marker (s : string) (m : rematch) :
  match_at RE_MARKER s = Some m ->
  marker_shaped m /\ exists rest, s = group0 m ++ rest.
Proof.
  intros H. apply match_at_sound in H.
  destruct H as [rest [mk' [Hs [Hm [H1 H2]]]]].
  apply RE_MARKER_matches in Hm. rewrite <- H1, <- H2 in Hm.
  split; [exact Hm | exists rest; exact Hs].
Qed.

Lemma finditer_marker (msg : string) (m : rematch) :
  In m (finditer RE_MARKER msg) ->
  marker_shaped m /\ exists before after, msg = before ++ group0 m ++ after.
Proof.
  intros H. apply scan_matches in H. destruct H as [before [s' [-> H]]].
  apply match_at_marker in H. destruct H as [Hshape [rest ->]].
  split; [exact Hshape | exists before, rest; reflexivity].
Qed.


(** ** [finditer] finds every place where the pattern matches *)

Lemma all_chars_app (f : ascii -> bool) (a b : string) :
  all_chars f (a ++ b) = all_chars f a && all_chars f b.
Proof.
  induction a as [| c a IH]; cbn; [| rewrite IH, andb_assoc]; reflexivity.
Qed.

Lemma all_chars_impl (f g : ascii -> bool) (t : string) :
  (forall c, f c = true -> g c = true) ->
  all_chars f t = true -> all_chars g t = true.
Proof.
  intros Hfg. induction t as [| c t IH]; cbn; [reflexivity |].
  rewrite !andb_true_iff. intros [Hc Ht]. split; [apply Hfg, Hc | apply IH, Ht].
Qed.

Lemma payload_char_not_open (c : ascii) :
  admits payload_char c = true -> not_open c = true.
Proof.
  unfold not_open. cbn. destruct (Ascii.eqb c "["); [| reflexivity].
  rewrite orb_true_r. discriminate.
Qed.

Lemma payload_or_none_not_open (g : option string) :
  payload_or_none g ->
  all_chars not_open (before_token g) = true /\
  all_chars not_open (after_token g) = true.
Proof.
  destruct g as [t |]; cbn [payload_or_none before_token after_token];
    [| split; reflexivity].
  intros [_ Hall].
  apply all_chars_impl with (g := not_open) in Hall;
    [| exact payload_char_not_open].
  split; [rewrite all_chars_app, Hall | cbn; rewrite Hall]; reflexivity.
Qed.

(** A marker opens with a bracket and holds no other opening bracket. *)
Lemma marker_shaped_brackets (m : rematch) :
  marker_shaped m ->
  exists body, group0 m = String "[" body /\ all_chars not_open body = true.
Proof.
  intros [token [Htoken [Htext [Hg1 Hg2]]]].
  exists (before_token (group1 m) ++ token ++ after_token (group2 m) ++ "]").
  split; [exact Htext |].
  apply payload_or_none_not_open in Hg1, Hg2.
  rewrite !all_chars_app.
  destruct Hg1 as [-> _], Hg2 as [_ ->].
  destruct Htoken as [-> | ->]; reflexivity.
Qed.

Lemma passes_over_0 (s : string) : passes_over 0 s.
Proof. exists "", s. repeat split. Qed.

Lemma passes_over_S (skip : nat) (c : ascii) (s : string) :
  passes_over (S skip) (String c s) -> c <> "["%char /\ passes_over skip s.
Proof.
  intros [[| d t] [rest [Hs [Hlen Hall]]]]; [discriminate |].
  cbn in Hs, Hlen, Hall. injection Hs as <- ->. injection Hlen as Hlen.
  apply andb_true_iff in Hall. destruct Hall as [Hd Hall]. split.
  - intros ->. discriminate Hd.
  - exists t, rest. repeat split; assumption.
Qed.

(** After a match at [String c s], the scan passes over the rest of its
    text. *)
Lemma passes_over_match (c : ascii) (s : string) (m : rematch) :
  match_at RE_MARKER (String c s) = Some m ->
  passes_over (String.length (group0 m) - 1) s.
Proof.
  intros H. apply match_at_marker in H. destruct H as [Hshape [rest Hs]].
  apply marker_shaped_brackets in Hshape.
  destruct Hshape as [body [Htext Hall]]. rewrite Htext in Hs |- *.
  cbn in Hs. injection Hs as _ ->. exists body, rest.
  cbn [String.length]. rewrite Nat.sub_succ, Nat.sub_0_r.
  repeat split. exact Hall.
Qed.

Lemma scan_finds (before : string) (skip : nat) (s : string) (m : rematch) :
  match_at RE_MARKER s = Some m ->
  passes_over skip (before ++ s) ->
  In m (scan RE_MARKER skip (before ++ s)).
Proof.
  intros Hm. revert skip.
  induction before as [| c before IH]; intros skip Hskip.
  - cbn [append] in *.
    destruct (match_at_marker s m Hm) as [Hshape [rest Hs]].
    apply marker_shaped_brackets in Hshape.
    destruct Hshape as [body [Htext _]]. rewrite Htext in Hs. cbn in Hs.
    subst s. destruct skip as [| skip].
    + cbn [scan]. rewrite Hm. left. reflexivity.
    + apply passes_over_S in Hskip. destruct Hskip as [Hc _].
      contradiction Hc. reflexivity.
  - cbn [append scan] in *. destruct skip as [| skip].
    + destruct (match_at RE_MARKER (String c (before ++ s))) as [m' |] eqn:Hm'.
      * right. apply IH. apply passes_over_match with c. exact Hm'.
      * apply IH, passes_over_0.
    + apply IH. apply passes_over_S in Hskip. apply Hskip.
Qed.

(** Matches of [RE_MARKER] cannot overlap, so [finditer] misses none. *)
Lemma finditer_finds (before s : string) (m : rematch) :
  match_at RE_MARKER s = Some m ->
  In m (finditer RE_MARKER (before ++ s)).
Proof. intros H. apply scan_finds; [exact H | apply passes_over_0]. Qed.

Lemma match_at_all_ci (rest : string) :
  match_at RE_MARKER ("[all ci]" ++ rest) =
  Some (MkMatch "[all ci]" (Some "all") None).
Proof. reflexivity. Qed.

Lemma match_at_bare_ci (rest : string) :
  match_at RE_MARKER ("[ci]" ++ rest) = Some (MkMatch "[ci]" None None).
Proof. reflexivity. Qed.

Lemma match_at_bare_test (rest : string) :
  match_at RE_MARKER ("[test]" ++ rest) = Some (MkMatch "[test]" None None).
Proof. reflexivity. Qed.

(** ** How the script ends, from the sequence of matches *)

Lemma select_ending (env : string) (ms : list rematch)
    (defaults : list string) :
  ending (select env ms defaults) =
  Raised match marker_verdict env ms with
         | Some e => e
         | None => SystemExit (if in_default_setb env defaults then 0 else 1)
         end.
Proof.
  induction ms as [| m ms IH]; cbn [marker_verdict].
  - rewrite select_nil, fallback_spec.
    destruct (in_default_setb env defaults); reflexivity.
  - rewrite select_cons. destruct (classify env m); try reflexivity; exact IH.
Qed.

Lemma marker_verdict_without_bare (env : string) (ms : list rematch) :
  Forall (fun m => classify env m <> Bare) ms ->
  (marker_verdict env ms = Some (SystemExit 0) /\
   Exists (is_kind Hit env) ms) \/
  (marker_verdict env ms = None /\ ~ Exists (is_kind Hit env) ms).
Proof.
  induction 1 as [| m ms Hm _ IH]; cbn [marker_verdict].
  - right. split; [reflexivity | intros H; inversion H].
  - destruct (classify env m) eqn:Hk.
    + destruct IH as [[-> Hex] | [-> Hno]]; [left | right];
        (split; [reflexivity |]).
      * right. exact Hex.
      * intros Hex. inversion Hex as [? ? Hhit | ? ? Hrest]; subst.
        -- unfold is_kind in Hhit. congruence.
        -- contradiction.
    + contradiction Hm. reflexivity.
    + left. split; [reflexivity | left; exact Hk].
    + destruct IH as [[-> Hex] | [-> Hno]]; [left | right];
        (split; [reflexivity |]).
      * right. exact Hex.
      * intros Hex. inversion Hex as [? ? Hhit | ? ? Hrest]; subst.
        -- unfold is_kind in Hhit. congruence.
        -- contradiction.
Qed.

(** Without a bare marker among the matches, the script decides as the
    union of the markers and of the default set. *)
Lemma select_without_bare (env : string) (ms : list rematch)
    (defaults : list string) :
  Forall (fun m => classify env m <> Bare) ms ->
  (accepted (select env ms defaults) <->
     Exists (is_kind Hit env) ms \/ in_default_set env defaults) /\
  (rejected (select env ms defaults) <->
     ~ (Exists (is_kind Hit env) ms \/ in_default_set env defaults)).
Proof.
  intros Hbare. unfold accepted, rejected. rewrite select_ending.
  rewrite <- in_default_set_reflect.
  destruct (marker_verdict_without_bare env ms Hbare)
    as [[-> Hex] | [-> Hno]].
  - split; split; try discriminate; auto.
    intros H. contradiction H. left. exact Hex.
  - destruct (in_default_setb env defaults); split; split;
      try discriminate; try reflexivity; auto.
    + intros H. contradiction H. right. reflexivity.
    + intros [H | H]; [contradiction | discriminate].
    + intros _ [H | H]; [contradiction | discriminate].
Qed.

(** ** Kinds of markers *)

Lemma payload_truthy (g : option string) :
  payload_or_none g ->
  Py.truthy g = match g with Some _ => true | None => false end.
Proof.
  destruct g as [[| c t] |]; cbn; try reflexivity. intros [H _].
  contradiction H. reflexivity.
Qed.

Lemma classify_marker (env : string) (m : rematch) :
  marker_shaped m ->
  classify env m =
  match group1 m, group2 m with
  | Some _, Some _ => Unrecognized
  | None, None => Bare
  | Some spec, None | None, Some spec =>
      if Py.str_in spec env || String.eqb spec "all" then Hit else Miss
  end.
Proof.
  intros [token [_ [_ [H1 H2]]]]. unfold classify, Py.or_.
  rewrite (payload_truthy _ H1), (payload_truthy _ H2).
  destruct (group1 m), (group2 m); reflexivity.
Qed.

Lemma hit_iff_marker_accepts (env : string) (m : rematch) :
  marker_shaped m ->
  classify env m = Hit <-> marker_accepts env m.
Proof.
  intros Hshape. rewrite (classify_marker env m Hshape).
  unfold marker_accepts, well_formed.
  destruct (group1 m) as [p |], (group2 m) as [q |].
  - split; [discriminate |].
    intros [spec [[[_ H] | [H _]] _]]; discriminate H.
  - destruct (Py.str_in p env || String.eqb p "all") eqn:Hp.
    + split; [intros _ | reflexivity]. exists p. split; [left; auto |].
      apply orb_true_iff in Hp. rewrite String.eqb_eq in Hp. exact Hp.
    + split; [discriminate |].
      intros [spec [[[[= <-] _] | [H _]] Hspec]]; [| discriminate H].
      apply orb_false_iff in Hp. destruct Hp as [Hin Hall].
      apply String.eqb_neq in Hall. destruct Hspec; congruence.
  - destruct (Py.str_in q env || String.eqb q "all") eqn:Hq.
    + split; [intros _ | reflexivity]. exists q. split; [right; auto |].
      apply orb_true_iff in Hq. rewrite String.eqb_eq in Hq. exact Hq.
    + split; [discriminate |].
      intros [spec [[[H _] | [_ [= <-]]] Hspec]]; [discriminate H |].
      apply orb_false_iff in Hq. destruct Hq as [Hin Hall].
      apply String.eqb_neq in Hall. destruct Hspec; congruence.
  - split; [discriminate |].
    intros [spec [[[H _] | [_ H]] _]]; discriminate H.
Qed.

Lemma bare_marker_text (env : string) (m : rematch) :
  marker_shaped m -> classify env m = Bare ->
  group0 m = "[ci]" \/ group0 m = "[test]".
Proof.
  intros Hshape. rewrite (classify_marker env m Hshape).
  destruct Hshape as [token [Htoken [Htext _]]]. rewrite Htext.
  destruct (group1 m) as [p |], (group2 m) as [q |]; try discriminate;
    try (destruct (_ || _); discriminate).
  intros _. destruct Htoken as [-> | ->]; [left | right]; reflexivity.
Qed.

(** A message without the texts [[ci]] and [[test]] has no bare marker. *)
Lemma no_bare_marker_matches (env msg : string) :
  no_bare_marker msg ->
  Forall (fun m => classify env m <> Bare) (finditer RE_MARKER msg).
Proof.
  intros [Hci Htest]. apply Forall_forall. intros m Hin Hbare.
  apply finditer_marker in Hin. destruct Hin as [Hshape [before [after ->]]].
  apply (bare_marker_text env m Hshape) in Hbare.
  destruct Hbare as [Heq | Heq]; rewrite Heq in *.
  - rewrite str_in_middle in Hci. discriminate.
  - rewrite str_in_middle in Htest. discriminate.
Qed.

(** ** The decision on a message without a bare marker *)

Lemma exists_hit_iff (env msg : string) :
  Exists (is_kind Hit env) (finditer RE_MARKER msg) <->
  exists m, In m (finditer RE_MARKER msg) /\ marker_accepts env m.
Proof.
  rewrite Exists_exists. unfold is_kind.
  split; intros [m [Hin H]]; exists m; (split; [exact Hin |]);
    apply (hit_iff_marker_accepts env m); try exact H;
    apply (finditer_marker msg m Hin).
Qed.

(** On such a message the script accepts exactly the jobs named by a
    well-formed marker or by the default set, and rejects the others. *)
Lemma decide_without_bare_marker (env msg : string) (defaults : list string) :
  no_bare_marker msg ->
  (accepted (should_run_job env msg defaults) <->
     (exists m, In m (finditer RE_MARKER msg) /\ marker_accepts env m) \/
     in_default_set env defaults) /\
  (rejected (should_run_job env msg defaults) <->
     ~ ((exists m, In m (finditer RE_MARKER msg) /\ marker_accepts env m) \/
        in_default_set env defaults)).
Proof.
  intros Hbare. unfold should_run_job. rewrite <- exists_hit_iff.
  apply select_without_bare, no_bare_marker_matches, Hbare.
Qed.

(** A run that raises [TypeError] has met the text [[ci]] or [[test]]. *)
Lemma crash_needs_bare_marker (env msg : string) (defaults : list string) :
  crashed (should_run_job env msg defaults) ->
  Py.str_in "[ci]" msg = true \/ Py.str_in "[test]" msg = true.
Proof.
  unfold crashed, should_run_job. rewrite select_ending. intros Hcrash.
  destruct (Py.str_in "[ci]" msg) eqn:Hci; [left; reflexivity |].
  destruct (Py.str_in "[test]" msg) eqn:Htest; [right; reflexivity |].
  exfalso.
  pose proof (no_bare_marker_matches env msg (conj Hci Htest)) as Hall.
  destruct (marker_verdict_without_bare env _ Hall) as [[Hv _] | [Hv _]];
    rewrite Hv in Hcrash; [discriminate |].
  destruct (in_default_setb env defaults); discriminate.
Qed.

Lemma marker_verdict_accepts (env : string) (ms : list rematch) :
  marker_verdict env ms = Some (SystemExit 0) ->
  Exists (is_kind Hit env) ms.
Proof.
  induction ms as [| m ms IH]; cbn [marker_verdict]; [discriminate |].
  destruct (classify env m) eqn:Hk; try discriminate.
  - intros H. right. apply IH, H.
  - intros _. left. exact Hk.
  - intros H. right. apply IH, H.
Qed.

Lemma marker_verdict_bare (env : string) (ms : list rematch) (m : rematch) :
  In m ms -> classify env m = Bare ->
  marker_verdict env ms = Some (SystemExit 0) \/
  marker_verdict env ms = Some TypeError.
Proof.
  induction ms as [| x ms IH]; intros Hin Hbare; [destruct Hin |].
  cbn [marker_verdict]. destruct Hin as [-> | Hin].
  - rewrite Hbare. right. reflexivity.
  - destruct (classify env x); auto.
Qed.

(** Conversely, a message in which [[ci]] or [[test]] occurs never reaches
    the default set: a marker accepts the job, or the run raises
    [TypeError]. *)
Lemma bare_marker_blocks_default_set (env msg : string)
    (defaults : list string) :
  Py.str_in "[ci]" msg = true \/ Py.str_in "[test]" msg = true ->
  (accepted (should_run_job env msg defaults) /\
   exists m, In m (finditer RE_MARKER msg) /\ marker_accepts env m) \/
  crashed (should_run_job env msg defaults).
Proof.
  intros Htext.
  assert (Hbare : exists m,
             In m (finditer RE_MARKER msg) /\ classify env m = Bare).
  { destruct Htext as [H | H]; apply str_in_iff in H;
      destruct H as [before [after ->]].
    - exists (MkMatch "[ci]" None None).
      split; [apply finditer_finds, match_at_bare_ci | reflexivity].
    - exists (MkMatch "[test]" None None).
      split; [apply finditer_finds, match_at_bare_test | reflexivity]. }
  destruct Hbare as [m [Hin Hk]].
  unfold accepted, crashed, should_run_job. rewrite select_ending.
  destruct (marker_verdict_bare env _ m Hin Hk) as [Hv | Hv]; rewrite Hv.
  - left. split; [reflexivity |].
    apply exists_hit_iff, marker_verdict_accepts, Hv.
  - right. reflexivity.
Qed.

(** Markers cannot veto on such a message. *)
Lemma default_set_not_vetoed (env msg : string) (defaults : list string) :
  no_bare_marker msg -> in_default_set env defaults ->
  accepted (should_run_job env msg defaults).
Proof.
  intros Hbare Hin. apply (decide_without_bare_marker env msg defaults Hbare).
  right. exact Hin.
Qed.

(** [[all ci]] anywhere in such a message accepts every job. *)
Lemma all_ci_accepts (env before after : string) (defaults : list string) :
  no_bare_marker (before ++ "[all ci]" ++ after) ->
  accepted (should_run_job env (before ++ "[all ci]" ++ after) defaults).
Proof.
  intros Hbare. apply (decide_without_bare_marker env _ defaults Hbare).
  left. exists (MkMatch "[all ci]" (Some "all") None). split.
  - apply finditer_finds, match_at_all_ci.
  - exists "all". split; [left; split; reflexivity | right; reflexivity].
Qed.

Lemma match_at_ci_foo (rest : string) :
  match_at RE_MARKER ("[ci foo]" ++ rest) =
  Some (MkMatch "[ci foo]" None (Some "foo")).
Proof. reflexivity. Qed.

(** [[ci foo]] anywhere in such a message accepts a job whose name
    contains [foo]. *)
Lemma ci_foo_accepts (before after : string) (defaults : list string) :
  no_bare_marker (before ++ "[ci foo]" ++ after) ->
  accepted
    (should_run_job "pytorch-foo-bar" (before ++ "[ci foo]" ++ after) defaults).
Proof.
  intros Hbare.
  apply (decide_without_bare_marker "pytorch-foo-bar" _ defaults Hbare).
  left. exists (MkMatch "[ci foo]" None (Some "foo")). split.
  - apply finditer_finds, match_at_ci_foo.
  - exists "foo". split; [right; split; reflexivity | left; reflexivity].
Qed.

(** With the empty build environment only the payload [all] accepts. *)
Lemma empty_environment_accepts_iff (msg : string) (defaults : list string) :
  Forall (fun spec => spec <> "") defaults ->
  no_bare_marker msg ->
  accepted (should_run_job "" msg defaults) <->
  exists m, In m (finditer RE_MARKER msg) /\ well_formed m "all".
Proof.
  intros Hne Hbare.
  rewrite (proj1 (decide_without_bare_marker "" msg defaults Hbare)).
  split.
  - intros [[m [Hin [spec [Hwf Hspec]]]] | Hdef].
    + exists m. split; [exact Hin |].
      destruct Hspec as [Hsub | ->]; [| exact Hwf]. exfalso.
      apply finditer_marker in Hin. destruct Hin as [[_ [_ [_ [H1 H2]]]] _].
      assert (Hpay : payload spec).
      { destruct Hwf as [[E _] | [_ E]]; rewrite E in *; assumption. }
      rewrite (str_in_empty spec (proj1 Hpay)) in Hsub. discriminate.
    + exfalso. unfold in_default_set in Hdef. apply Exists_exists in Hdef.
      destruct Hdef as [spec [Hin Hsub]].
      rewrite Forall_forall in Hne.
      rewrite (str_in_empty spec (Hne spec Hin)) in Hsub. discriminate.
  - intros [m [Hin Hwf]]. left. exists m. split; [exact Hin |].
    exists "all". split; [exact Hwf | right; reflexivity].
Qed.

(** ** Case of the token *)




(** ** A marker without payload *)

(** C2. The message ["[ci]"] (and likewise ["[test]"]) matches the marker
    pattern with neither group set; [spec] is then [None] and the test
    [spec in build_environment] raises [TypeError] before anything is
    printed, whatever the build environment and the default set. *)
Theorem C2_bare_marker_raises_TypeError
    (build_environment : string) (defaults : list string) :
  finditer RE_MARKER "[ci]" = [MkMatch "[ci]" None None] /\
  should_run_job build_environment "[ci]" defaults = ([], Raised TypeError) /\
  should_run_job build_environment "[test]" defaults = ([], Raised TypeError).
Proof. repeat split. Qed.

(** C1. With the script's own default set, the build environment
    ["pytorch-doc-push"] is in the default set, yet on the message
    ["[test] fix docs"] the run raises [TypeError]: it is neither accepted
    nor rejected. With an empty default set and the job ["some-new-job"],
    where neither a marker nor a default entry matches, the run on ["[test]"]
    is not a rejection either. *)
Theorem C1_bare_marker_gives_no_decision :
  in_default_set "pytorch-doc-push" default_set /\
  main "pytorch-doc-push" "[test] fix docs" = ([], Raised TypeError) /\
  ~ accepted (main "pytorch-doc-push" "[test] fix docs") /\
  ~ (exists m, In m (finditer RE_MARKER "[test]") /\
               marker_accepts "some-new-job" m) /\
  ~ in_default_set "some-new-job" [] /\
  ~ rejected (should_run_job "some-new-job" "[test]" []).
Proof.
  repeat split.
  - apply in_default_set_reflect. vm_compute. reflexivity.
  - vm_compute. discriminate.
  - intros [m [Hin [spec [Hwf _]]]].
    vm_compute in Hin. destruct Hin as [<- | []].
    destruct Hwf as [[H _] | [_ H]]; discriminate H.
  - intros H. inversion H.
  - vm_compute. discriminate.
Qed.

(** C4. The build environment ["pytorch-linux-xenial-cuda9-cudnn7-py3"] is
    an entry of the default set, but the commit message ["Fix typo [ci]"]
    keeps the job from being accepted: the run raises [TypeError]. *)
Theorem C4_bare_marker_vetoes_default_set :
  in_default_set "pytorch-linux-xenial-cuda9-cudnn7-py3" default_set /\
  accepted (main "pytorch-linux-xenial-cuda9-cudnn7-py3" "Fix typo") /\
  main "pytorch-linux-xenial-cuda9-cudnn7-py3" "Fix typo [ci]"
    = ([], Raised TypeError) /\
  ~ accepted (main "pytorch-linux-xenial-cuda9-cudnn7-py3" "Fix typo [ci]").
Proof.
  repeat split.
  - apply in_default_set_reflect. vm_compute. reflexivity.
  - vm_compute. discriminate.
Qed.

(** C6. The message ["[ci] [all ci]"] contains the marker ["[all ci]"], whose
    payload is ['all'], but the bare marker before it raises [TypeError]:
    the job is not accepted, for any build environment and default set. *)
Theorem C6_all_marker_after_bare_marker
    (build_environment : string) (defaults : list string) :
  In (MkMatch "[all ci]" (Some "all") None)
     (finditer RE_MARKER "[ci] [all ci]") /\
  should_run_job build_environment "[ci] [all ci]" defaults
    = ([], Raised TypeError) /\
  ~ accepted (should_run_job build_environment "[ci] [all ci]" defaults).
Proof.
  repeat split.
  - vm_compute. right; left; reflexivity.
  - cbv. discriminate.
Qed.

(** C7. The message ["[test] [ci foo]"] contains the marker ["[ci foo]"] and
    ["foo"] is a substring of ["pytorch-foo-bar"], but the bare marker
    before it raises [TypeError]: the job is not accepted, for any default
    set. *)
Theorem C7_substring_marker_after_bare_marker (defaults : list string) :
  In (MkMatch "[ci foo]" None (Some "foo"))
     (finditer RE_MARKER "[test] [ci foo]") /\
  Py.str_in "foo" "pytorch-foo-bar" = true /\
  should_run_job "pytorch-foo-bar" "[test] [ci foo]" defaults
    = ([], Raised TypeError) /\
  ~ accepted (should_run_job "pytorch-foo-bar" "[test] [ci foo]" defaults).
Proof.
  repeat split.
  - vm_compute. right; left; reflexivity.
  - cbv. discriminate.
Qed.

(** C10. With the empty build environment and the script's default set
    (all of whose entries are non-empty), the message ["[ci] [all ci]"]
    contains a well-formed marker whose payload is exactly ['all'], and the
    job is not accepted: the bare marker raises [TypeError] first. *)
Theorem C10_empty_environment_all_after_bare_marker :
  Forall (fun spec => spec <> "") default_set /\
  (exists m, In m (finditer RE_MARKER "[ci] [all ci]") /\
             well_formed m "all") /\
  main "" "[ci] [all ci]" = ([], Raised TypeError) /\
  ~ accepted (main "" "[ci] [all ci]").
Proof.
  repeat split.
  - unfold default_set. repeat constructor; discriminate.
  - exists (MkMatch "[all ci]" (Some "all") None). split.
    + vm_compute. right; left; reflexivity.
    + left. split; reflexivity.
  - vm_compute. discriminate.
Qed.

(** ** The exit status of the process *)

(** At the level of the process: status 0 exactly after an acceptance line;
    a rejection line is followed by status 1; but status 1 is also that of
    a run that raised [TypeError], which printed no rejection line. *)
Lemma exit_status_and_last_line
    (build_environment commit_msg : string) (defaults : list string) :
  (exit_status (should_run_job build_environment commit_msg defaults) = 0%Z
   <->
   exists out line,
     stdout (should_run_job build_environment commit_msg defaults)
       = (out ++ [line])%list /\
     acceptance_line build_environment line) /\
  (exit_status (should_run_job build_environment commit_msg defaults) = 1%Z
   <->
   (exists out,
      stdout (should_run_job build_environment commit_msg defaults)
        = (out ++ [reject_line build_environment])%list) \/
   crashed (should_run_job build_environment commit_msg defaults)).
Proof.
  destruct (sys_exit_codes_and_last_line build_environment commit_msg defaults)
    as [Hacc [Hrej _]].
  unfold accepted, rejected in Hacc, Hrej. unfold exit_status, crashed.
  rewrite <- Hacc, <- Hrej.
  destruct (select_ends build_environment (finditer RE_MARKER commit_msg)
              defaults) as [H | [H | H]];
    unfold accepted, rejected, crashed in H;
    fold (should_run_job build_environment commit_msg defaults) in H;
    rewrite H; split; split; try discriminate; try reflexivity; auto.
  - intros [E | E]; discriminate E.
Qed.

(** C8. The exit status does not encode the decision on a message with a
    bare marker: on ["[ci]"] nothing is printed, the job is not rejected (no
    rejection line, no [sys.exit(1)]), and the uncaught [TypeError] ends the
    process with status 1, the status of a rejection such as that of
    ["some-new-job"] on a message without markers. *)
Theorem C8_exit_status_1_without_rejection
    (build_environment : string) (defaults : list string) :
  should_run_job build_environment "[ci]" defaults = ([], Raised TypeError) /\
  exit_status (should_run_job build_environment "[ci]" defaults) = 1%Z /\
  ~ rejected (should_run_job build_environment "[ci]" defaults) /\
  ~ In (reject_line build_environment)
       (stdout (should_run_job build_environment "[ci]" defaults)) /\
  should_run_job "some-new-job" "no markers here" [] =
    (["Rejecting some-new-job"], Raised (SystemExit 1)) /\
  exit_status (should_run_job "some-new-job" "no markers here" []) = 1%Z.
Proof.
  split; [reflexivity |]. split; [reflexivity |].
  split; [discriminate |]. split; [intros [] |].
  split; vm_compute; reflexivity.
Qed.

(** * Further properties *)

(** ** What [finditer] returns *)

(** X1. [RE_MARKER.finditer] returns exactly the matches of the pattern at
    the positions of the message: no match is hidden by an earlier one,
    because two matches of this pattern cannot overlap. *)
Theorem X1_finditer_returns_every_match (commit_msg : string) (m : rematch) :
  In m (finditer RE_MARKER commit_msg) <->
  exists before s,
    commit_msg = before ++ s /\ match_at RE_MARKER s = Some m.
Proof.
  split.
  - apply scan_matches.
  - intros [before [s [-> Hm]]]. apply finditer_finds, Hm.
Qed.

(** ** The first marker that decides *)

Lemma bare_iff (env : string) (m : rematch) :
  marker_shaped m -> classify env m = Bare <-> bare m.
Proof.
  intros Hshape. rewrite (classify_marker env m Hshape). unfold bare.
  destruct (group1 m) as [p |], (group2 m) as [q |].
  - split; [discriminate | intros [H _]; discriminate H].
  - split; [destruct (_ || _); discriminate | intros [H _]; discriminate H].
  - split; [destruct (_ || _); discriminate | intros [_ H]; discriminate H].
  - split; [intros _; split; reflexivity | reflexivity].
Qed.

Lemma verdict_accept_iff (env : string) (ms : list rematch) :
  marker_verdict env ms = Some (SystemExit 0) <->
  exists before m after,
    ms = (before ++ m :: after)%list /\ classify env m = Hit /\
    Forall (fun x => classify env x <> Bare) before.
Proof.
  split.
  - induction ms as [| x ms IH]; cbn [marker_verdict]; [discriminate |].
    destruct (classify env x) eqn:Hx; try discriminate.
    + intros H. destruct (IH H) as [before [m [after [-> [Hm Hb]]]]].
      exists (x :: before), m, after. repeat split; [exact Hm |].
      constructor; [congruence | exact Hb].
    + intros _. exists [], x, ms. repeat split; [exact Hx | constructor].
    + intros H. destruct (IH H) as [before [m [after [-> [Hm Hb]]]]].
      exists (x :: before), m, after. repeat split; [exact Hm |].
      constructor; [congruence | exact Hb].
  - intros [before [m [after [-> [Hm Hb]]]]].
    induction Hb as [| x before Hx _ IH]; cbn [app marker_verdict].
    + rewrite Hm. reflexivity.
    + destruct (classify env x); try reflexivity; try exact IH.
      contradiction Hx. reflexivity.
Qed.

Lemma verdict_crash_iff (env : string) (ms : list rematch) :
  marker_verdict env ms = Some TypeError <->
  exists before m after,
    ms = (before ++ m :: after)%list /\ classify env m = Bare /\
    Forall (fun x => classify env x <> Hit) before.
Proof.
  split.
  - induction ms as [| x ms IH]; cbn [marker_verdict]; [discriminate |].
    destruct (classify env x) eqn:Hx; try discriminate.
    + intros H. destruct (IH H) as [before [m [after [-> [Hm Hb]]]]].
      exists (x :: before), m, after. repeat split; [exact Hm |].
      constructor; [congruence | exact Hb].
    + intros _. exists [], x, ms. repeat split; [exact Hx | constructor].
    + intros H. destruct (IH H) as [before [m [after [-> [Hm Hb]]]]].
      exists (x :: before), m, after. repeat split; [exact Hm |].
      constructor; [congruence | exact Hb].
  - intros [before [m [after [-> [Hm Hb]]]]].
    induction Hb as [| x before Hx _ IH]; cbn [app marker_verdict].
    + rewrite Hm. reflexivity.
    + destruct (classify env x); try reflexivity; try exact IH.
      contradiction Hx. reflexivity.
Qed.

Lemma verdict_none_iff (env : string) (ms : list rematch) :
  marker_verdict env ms = None <->
  Forall (fun x => classify env x <> Bare /\ classify env x <> Hit) ms.
Proof.
  induction ms as [| x ms IH]; cbn [marker_verdict].
  - split; [constructor | reflexivity].
  - destruct (classify env x) eqn:Hx.
    + rewrite IH. split.
      * intros H. constructor; [rewrite Hx; split; discriminate | exact H].
      * intros H. inversion H. assumption.
    + split; [discriminate |]. intros H. inversion H as [| ? ? [Hb _] _].
      contradiction Hb.
    + split; [discriminate |]. intros H. inversion H as [| ? ? [_ Hh] _].
      contradiction Hh.
    + rewrite IH. split.
      * intros H. constructor; [rewrite Hx; split; discriminate | exact H].
      * intros H. inversion H. assumption.
Qed.

Lemma verdict_cases (env : string) (ms : list rematch) :
  marker_verdict env ms = Some (SystemExit 0) \/
  marker_verdict env ms = Some TypeError \/
  marker_verdict env ms = None.
Proof.
  induction ms as [| x ms IH]; cbn [marker_verdict]; [auto |].
  destruct (classify env x); auto.
Qed.

Lemma finditer_shaped (msg : string) :
  Forall marker_shaped (finditer RE_MARKER msg).
Proof.
  apply Forall_forall. intros m Hin. apply (finditer_marker msg m Hin).
Qed.

Lemma Forall_not_bare (env : string) (ms : list rematch) :
  Forall marker_shaped ms ->
  Forall (fun x => classify env x <> Bare) ms <->
  Forall (fun x => ~ bare x) ms.
Proof.
  intros Hs. rewrite !Forall_forall. rewrite Forall_forall in Hs.
  split; intros H x Hin; specialize (H x Hin);
    rewrite (bare_iff env x (Hs x Hin)) in *; exact H.
Qed.

Lemma Forall_not_hit (env : string) (ms : list rematch) :
  Forall marker_shaped ms ->
  Forall (fun x => classify env x <> Hit) ms <->
  Forall (fun x => ~ marker_accepts env x) ms.
Proof.
  intros Hs. rewrite !Forall_forall. rewrite Forall_forall in Hs.
  split; intros H x Hin; specialize (H x Hin);
    rewrite (hit_iff_marker_accepts env x (Hs x Hin)) in *; exact H.
Qed.

Lemma marker_accept_split_iff (env msg : string) :
  marker_verdict env (finditer RE_MARKER msg) = Some (SystemExit 0) <->
  exists before m after,
    finditer RE_MARKER msg = (before ++ m :: after)%list /\
    marker_accepts env m /\ Forall (fun x => ~ bare x) before.
Proof.
  rewrite verdict_accept_iff.
  split; intros [before [m [after [Hms [Hm Hb]]]]];
    exists before, m, after; (split; [exact Hms |]);
    pose proof (finditer_shaped msg) as Hs; rewrite Hms in Hs;
    apply Forall_app in Hs; destruct Hs as [Hs1 Hs2];
    inversion Hs2 as [| ? ? Hsm _]; subst.
  - split; [apply (hit_iff_marker_accepts env m Hsm), Hm |].
    apply (Forall_not_bare env before Hs1), Hb.
  - split; [apply (hit_iff_marker_accepts env m Hsm), Hm |].
    apply (Forall_not_bare env before Hs1), Hb.
Qed.

Lemma marker_crash_split_iff (env msg : string) :
  marker_verdict env (finditer RE_MARKER msg) = Some TypeError <->
  exists before m after,
    finditer RE_MARKER msg = (before ++ m :: after)%list /\
    bare m /\ Forall (fun x => ~ marker_accepts env x) before.
Proof.
  rewrite verdict_crash_iff.
  split; intros [before [m [after [Hms [Hm Hb]]]]];
    exists before, m, after; (split; [exact Hms |]);
    pose proof (finditer_shaped msg) as Hs; rewrite Hms in Hs;
    apply Forall_app in Hs; destruct Hs as [Hs1 Hs2];
    inversion Hs2 as [| ? ? Hsm _]; subst.
  - split; [apply (bare_iff env m Hsm), Hm |].
    apply (Forall_not_hit env before Hs1), Hb.
  - split; [apply (bare_iff env m Hsm), Hm |].
    apply (Forall_not_hit env before Hs1), Hb.
Qed.

Lemma no_marker_decides_iff (env msg : string) :
  marker_verdict env (finditer RE_MARKER msg) = None <->
  Forall (fun x => ~ bare x /\ ~ marker_accepts env x)
         (finditer RE_MARKER msg).
Proof.
  rewrite verdict_none_iff, !Forall_forall.
  split; intros H x Hin; specialize (H x Hin);
    pose proof (proj1 (finditer_marker msg x Hin)) as Hsx;
    rewrite (bare_iff env x Hsx), (hit_iff_marker_accepts env x Hsx) in *;
    exact H.
Qed.

(** X2. The first marker that decides, decides: the job is accepted when a
    well-formed marker matches it and no marker before that one is bare, or
    when no marker decides and the default set holds the job; the run
    raises [TypeError] when a bare marker comes before every marker that
    matches; the job is rejected when no marker is bare or matches and the
    default set does not hold it. *)
Theorem X2_first_deciding_marker
    (build_environment commit_msg : string) (defaults : list string) :
  (accepted (should_run_job build_environment commit_msg defaults) <->
     (exists before m after,
        finditer RE_MARKER commit_msg = (before ++ m :: after)%list /\
        marker_accepts build_environment m /\
        Forall (fun x => ~ bare x) before) \/
     (Forall (fun x => ~ bare x /\ ~ marker_accepts build_environment x)
             (finditer RE_MARKER commit_msg) /\
      in_default_set build_environment defaults)) /\
  (crashed (should_run_job build_environment commit_msg defaults) <->
     exists before m after,
       finditer RE_MARKER commit_msg = (before ++ m :: after)%list /\
       bare m /\
       Forall (fun x => ~ marker_accepts build_environment x) before) /\
  (rejected (should_run_job build_environment commit_msg defaults) <->
     Forall (fun x => ~ bare x /\ ~ marker_accepts build_environment x)
            (finditer RE_MARKER commit_msg) /\
     ~ in_default_set build_environment defaults).
Proof.
  unfold accepted, crashed, rejected, should_run_job.
  rewrite select_ending.
  rewrite <- marker_accept_split_iff, <- marker_crash_split_iff,
    <- no_marker_decides_iff, <- in_default_set_reflect.
  destruct (verdict_cases build_environment (finditer RE_MARKER commit_msg))
    as [Hv | [Hv | Hv]]; rewrite Hv.
  - repeat split; try discriminate; auto.
    + intros [H _]. discriminate H.
  - repeat split; try discriminate; auto.
    + intros [H | [H _]]; discriminate H.
    + intros [H _]. discriminate H.
  - destruct (in_default_setb build_environment defaults);
      repeat split; try discriminate; auto.
    + intros [_ H]. contradiction H. reflexivity.
    + intros [H | [_ H]]; discriminate H.
Qed.

(** ** What a run prints *)

Lemma classify_unrecognized_iff (env : string) (m : rematch) :
  classify env m = Unrecognized <-> both_groups m = true.
Proof.
  unfold classify, both_groups.
  destruct (Py.truthy (group1 m) && Py.truthy (group2 m)).
  - split; reflexivity.
  - split; [| discriminate].
    destruct (Py.or_ (group1 m) (group2 m)); [| discriminate].
    destruct (_ || _); discriminate.
Qed.

(** Markers that do not decide leave only their reports. *)
Lemma marker_loop_through (env : string) (ms : list rematch) :
  Forall (fun x => classify env x <> Bare /\ classify env x <> Hit) ms ->
  marker_loop env ms = (reports ms, Done tt).
Proof.
  unfold marker_loop, reports.
  induction 1 as [| x ms [Hb Hh] _ IH]; [reflexivity |].
  cbn [for_each filter]. rewrite marker_body_classify, IH.
  destruct (classify env x) eqn:Hx; try congruence.
  - apply classify_unrecognized_iff in Hx. rewrite Hx. reflexivity.
  - assert (Hno : both_groups x = false).
    { destruct (both_groups x) eqn:E; [| reflexivity].
      apply (classify_unrecognized_iff env) in E. congruence. }
    rewrite Hno. reflexivity.
Qed.

Lemma select_through (env : string) (before rest : list rematch)
    (defaults : list string) :
  Forall (fun x => classify env x <> Bare /\ classify env x <> Hit) before ->
  select env (before ++ rest)%list defaults =
  ((reports before ++ stdout (select env rest defaults))%list,
   ending (select env rest defaults)).
Proof.
  intros H. rewrite select_app, (marker_loop_through env before H).
  cbn [bind]. destruct (select env rest defaults). reflexivity.
Qed.

Lemma undecided_classify (env : string) (ms : list rematch) :
  Forall marker_shaped ms ->
  Forall (fun x => ~ bare x /\ ~ marker_accepts env x) ms ->
  Forall (fun x => classify env x <> Bare /\ classify env x <> Hit) ms.
Proof.
  rewrite !Forall_forall. intros Hs H x Hin. specialize (H x Hin).
  rewrite (bare_iff env x (Hs x Hin)),
    (hit_iff_marker_accepts env x (Hs x Hin)).
  exact H.
Qed.

(** X3. An accepting marker short-circuits: when a well-formed marker
    matches the job and no marker before it is bare or matches, the script
    prints the reports of the unrecognized markers before it, then the
    acceptance line that names this marker, and exits with status 0; the
    rest of the message and the default set play no part. *)
Theorem X3_accepting_marker_short_circuits
    (build_environment commit_msg : string) (defaults : list string)
    (before after : list rematch) (m : rematch) :
  finditer RE_MARKER commit_msg = (before ++ m :: after)%list ->
  Forall (fun x => ~ bare x /\ ~ marker_accepts build_environment x) before ->
  marker_accepts build_environment m ->
  should_run_job build_environment commit_msg defaults =
    ((reports before ++ [marker_line build_environment m])%list,
     Raised (SystemExit 0)).
Proof.
  intros Hms Hbefore Hm. unfold should_run_job.
  pose proof (finditer_shaped commit_msg) as Hs. rewrite Hms in Hs |- *.
  apply Forall_app in Hs. destruct Hs as [Hs1 Hs2].
  inversion Hs2 as [| ? ? Hsm _]; subst.
  rewrite (select_through _ _ _ _
             (undecided_classify _ _ Hs1 Hbefore)).
  apply (hit_iff_marker_accepts build_environment m Hsm) in Hm.
  rewrite select_cons, Hm. reflexivity.
Qed.

Lemma X3_witness :
  finditer RE_MARKER "[a ci b] [ci gpu] [all ci] [ci]" =
    ([MkMatch "[a ci b]" (Some "a") (Some "b")]
       ++ MkMatch "[ci gpu]" None (Some "gpu")
       :: [MkMatch "[all ci]" (Some "all") None;
           MkMatch "[ci]" None None])%list /\
  should_run_job "linux-gpu" "[a ci b] [ci gpu] [all ci] [ci]" default_set =
    (["Unrecognized marker: [a ci b]";
      "Accepting linux-gpu due to commit marker [ci gpu]"],
     Raised (SystemExit 0)).
Proof.
  assert (Hms : finditer RE_MARKER "[a ci b] [ci gpu] [all ci] [ci]" =
    ([MkMatch "[a ci b]" (Some "a") (Some "b")]
       ++ MkMatch "[ci gpu]" None (Some "gpu")
       :: [MkMatch "[all ci]" (Some "all") None;
           MkMatch "[ci]" None None])%list)
    by (vm_compute; reflexivity).
  split; [exact Hms |].
  pose proof (X3_accepting_marker_short_circuits
                "linux-gpu" "[a ci b] [ci gpu] [all ci] [ci]" default_set
                _ _ _ Hms) as H.
  vm_compute. vm_compute in H. apply H.
  - constructor; [| constructor]. split.
    + intros [E _]. discriminate E.
    + intros [spec [[[_ E] | [E _]] _]]; discriminate E.
  - exists "gpu". split; [right; split; reflexivity | left; reflexivity].
Defined.

(** X4. When a bare marker comes first among the markers that are bare or
    match, the script prints the reports of the unrecognized markers before
    it and raises [TypeError]: no acceptance or rejection line is printed,
    whatever follows in the message and whatever the default set. *)
Theorem X4_bare_marker_stops_the_run
    (build_environment commit_msg : string) (defaults : list string)
    (before after : list rematch) (m : rematch) :
  finditer RE_MARKER commit_msg = (before ++ m :: after)%list ->
  Forall (fun x => ~ bare x /\ ~ marker_accepts build_environment x) before ->
  bare m ->
  should_run_job build_environment commit_msg defaults =
    (reports before, Raised TypeError).
Proof.
  intros Hms Hbefore Hm. unfold should_run_job.
  pose proof (finditer_shaped commit_msg) as Hs. rewrite Hms in Hs |- *.
  apply Forall_app in Hs. destruct Hs as [Hs1 Hs2].
  inversion Hs2 as [| ? ? Hsm _]; subst.
  rewrite (select_through _ _ _ _
             (undecided_classify _ _ Hs1 Hbefore)).
  apply (bare_iff build_environment m Hsm) in Hm.
  rewrite select_cons, Hm. cbn [stdout ending fst snd].
  rewrite app_nil_r. reflexivity.
Qed.

Lemma X4_witness :
  finditer RE_MARKER "[a ci b] [ci gpu] [test] [all ci]" =
    ([MkMatch "[a ci b]" (Some "a") (Some "b");
      MkMatch "[ci gpu]" None (Some "gpu")]
       ++ MkMatch "[test]" None None
       :: [MkMatch "[all ci]" (Some "all") None])%list /\
  should_run_job "pytorch-doc-push" "[a ci b] [ci gpu] [test] [all ci]"
    default_set =
    (["Unrecognized marker: [a ci b]"], Raised TypeError).
Proof.
  assert (Hms : finditer RE_MARKER "[a ci b] [ci gpu] [test] [all ci]" =
    ([MkMatch "[a ci b]" (Some "a") (Some "b");
      MkMatch "[ci gpu]" None (Some "gpu")]
       ++ MkMatch "[test]" None None
       :: [MkMatch "[all ci]" (Some "all") None])%list)
    by (vm_compute; reflexivity).
  split; [exact Hms |].
  pose proof (X4_bare_marker_stops_the_run
                "pytorch-doc-push" "[a ci b] [ci gpu] [test] [all ci]"
                default_set _ _ _ Hms) as H.
  vm_compute. vm_compute in H. apply H.
  - constructor; [| constructor; [| constructor]]; split.
    + intros [E _]. discriminate E.
    + intros [spec [[[_ E] | [E _]] _]]; discriminate E.
    + intros [_ E]. discriminate E.
    + intros [spec [[[E _] | [_ E]] Hspec]]; [discriminate E |].
      injection E as <-. destruct Hspec as [E | E]; discriminate E.
  - split; reflexivity.
Defined.

(** X5. When no marker of the message is bare or matches the job, the script
    reports every unrecognized marker and then closes on the default set
    alone: the default-set acceptance line and status 0 if some default
    entry is a substring of the build environment, the rejection line and
    status 1 otherwise. *)
Theorem X5_default_set_decides_when_no_marker_does
    (build_environment commit_msg : string) (defaults : list string) :
  Forall (fun x => ~ bare x /\ ~ marker_accepts build_environment x)
         (finditer RE_MARKER commit_msg) ->
  (in_default_set build_environment defaults ->
   should_run_job build_environment commit_msg defaults =
     ((reports (finditer RE_MARKER commit_msg)
         ++ [default_line build_environment])%list,
      Raised (SystemExit 0))) /\
  (~ in_default_set build_environment defaults ->
   should_run_job build_environment commit_msg defaults =
     ((reports (finditer RE_MARKER commit_msg)
         ++ [reject_line build_environment])%list,
      Raised (SystemExit 1))).
Proof.
  intros Hnone. unfold should_run_job.
  pose proof (undecided_classify _ _ (finditer_shaped commit_msg) Hnone) as H.
  pose proof (select_through build_environment _ [] defaults H) as Hrun.
  rewrite app_nil_r in Hrun. rewrite Hrun, select_nil, fallback_spec.
  rewrite <- in_default_set_reflect.
  destruct (in_default_setb build_environment defaults); split;
    try reflexivity.
  - intros Hno. contradiction Hno. reflexivity.
  - intros Hyes. discriminate Hyes.
Qed.

Lemma X5_witness :
  should_run_job "some-new-job" "[a ci b] see [ci gpu]" default_set =
    (["Unrecognized marker: [a ci b]"; "Rejecting some-new-job"],
     Raised (SystemExit 1)) /\
  should_run_job "pytorch-doc-push" "[a ci b] see [ci gpu]" default_set =
    (["Unrecognized marker: [a ci b]";
      "Accepting pytorch-doc-push as part of default set"],
     Raised (SystemExit 0)).
Proof.
  assert (Hms : finditer RE_MARKER "[a ci b] see [ci gpu]" =
                [MkMatch "[a ci b]" (Some "a") (Some "b");
                 MkMatch "[ci gpu]" None (Some "gpu")])
    by (vm_compute; reflexivity).
  assert (Hnone : forall env,
            Py.str_in "gpu" env = false ->
            Forall (fun x => ~ bare x /\ ~ marker_accepts env x)
                   (finditer RE_MARKER "[a ci b] see [ci gpu]")).
  { intros env Henv. rewrite Hms.
    constructor; [| constructor; [| constructor]]; split.
    - intros [E _]. discriminate E.
    - intros [spec [[[_ E] | [E _]] _]]; discriminate E.
    - intros [_ E]. discriminate E.
    - intros [spec [[[E _] | [_ E]] Hspec]]; [discriminate E |].
      injection E as <-. destruct Hspec as [E | E]; [| discriminate E].
      rewrite Henv in E. discriminate E. }
  pose proof (X5_default_set_decides_when_no_marker_does
                "some-new-job" "[a ci b] see [ci gpu]" default_set
                (Hnone "some-new-job" eq_refl)) as [_ Hrej].
  pose proof (X5_default_set_decides_when_no_marker_does
                "pytorch-doc-push" "[a ci b] see [ci gpu]" default_set
                (Hnone "pytorch-doc-push" eq_refl)) as [Hacc _].
  assert (Hno : ~ in_default_set "some-new-job" default_set).
  { intros H. apply in_default_set_reflect in H. vm_compute in H.
    discriminate H. }
  assert (Hyes : in_default_set "pytorch-doc-push" default_set).
  { apply in_default_set_reflect. vm_compute. reflexivity. }
  specialize (Hrej Hno). specialize (Hacc Hyes).
  vm_compute in Hrej, Hacc |- *. split; [exact Hrej | exact Hacc].
Defined.

(** ** The build environment and the default set as parameters *)

Lemma classify_mono (env env' : string) (m : rematch) :
  Py.str_in env env' = true ->
  match classify env m with
  | Unrecognized => classify env' m = Unrecognized
  | Bare => classify env' m = Bare
  | Hit => classify env' m = Hit
  | Miss => classify env' m = Miss \/ classify env' m = Hit
  end.
Proof.
  intros Hsub. unfold classify.
  destruct (Py.truthy (group1 m) && Py.truthy (group2 m)); [reflexivity |].
  destruct (Py.or_ (group1 m) (group2 m)) as [spec |]; [| reflexivity].
  destruct (Py.str_in spec env) eqn:Hin; cbn [orb].
  - rewrite (str_in_trans _ _ _ Hin Hsub). reflexivity.
  - destruct (String.eqb spec "all").
    + rewrite orb_true_r. reflexivity.
    + rewrite orb_false_r. destruct (Py.str_in spec env'); auto.
Qed.

Lemma marker_verdict_mono (env env' : string) (ms : list rematch) :
  Py.str_in env env' = true ->
  match marker_verdict env ms with
  | Some (SystemExit _) => marker_verdict env' ms = Some (SystemExit 0)
  | Some TypeError => True
  | None => marker_verdict env' ms = Some (SystemExit 0) \/
            marker_verdict env' ms = None
  end.
Proof.
  intros Hsub. induction ms as [| x ms IH]; cbn [marker_verdict]; [auto |].
  pose proof (classify_mono env env' x Hsub) as Hx.
  destruct (classify env x).
  - rewrite Hx. exact IH.
  - exact I.
  - rewrite Hx. reflexivity.
  - destruct Hx as [-> | ->]; [exact IH |].
    destruct (marker_verdict env ms) as [[c |] |]; auto.
Qed.

Lemma in_default_setb_mono (env env' : string) (defaults : list string) :
  Py.str_in env env' = true ->
  in_default_setb env defaults = true ->
  in_default_setb env' defaults = true.
Proof.
  intros Hsub. unfold in_default_setb. rewrite !existsb_exists.
  intros [spec [Hin H]]. exists spec.
  split; [exact Hin | apply (str_in_trans _ _ _ H Hsub)].
Qed.

(** X6. Acceptance is monotone in the build environment: a job whose name
    contains the name of an accepted job is accepted too, on the same
    commit message and default set, because markers and default entries
    match by substring. *)
Theorem X6_acceptance_is_monotone_in_build_environment
    (build_environment longer commit_msg : string) (defaults : list string) :
  Py.str_in build_environment longer = true ->
  accepted (should_run_job build_environment commit_msg defaults) ->
  accepted (should_run_job longer commit_msg defaults).
Proof.
  intros Hsub. unfold accepted, should_run_job. rewrite !select_ending.
  pose proof (marker_verdict_mono build_environment longer
                (finditer RE_MARKER commit_msg) Hsub) as Hv.
  destruct (marker_verdict build_environment (finditer RE_MARKER commit_msg))
    as [[c |] |].
  - rewrite Hv. reflexivity.
  - discriminate.
  - destruct (in_default_setb build_environment defaults) eqn:Hd;
      [| discriminate].
    intros _. destruct Hv as [-> | ->]; [reflexivity |].
    rewrite (in_default_setb_mono _ _ _ Hsub Hd). reflexivity.
Qed.

Lemma X6_witness :
  Py.str_in "pytorch-doc-push" "nightly-pytorch-doc-push-2" = true /\
  accepted (should_run_job "pytorch-doc-push" "fix [a ci b]" default_set) /\
  accepted
    (should_run_job "nightly-pytorch-doc-push-2" "fix [a ci b]" default_set).
Proof.
  assert (Hacc : accepted
            (should_run_job "pytorch-doc-push" "fix [a ci b]" default_set))
    by (vm_compute; reflexivity).
  split; [reflexivity | split; [exact Hacc |]].
  apply (X6_acceptance_is_monotone_in_build_environment
           "pytorch-doc-push" "nightly-pytorch-doc-push-2" "fix [a ci b]"
           default_set eq_refl Hacc).
Defined.

(** X7. The default set counts only through membership: two default sets
    that agree on whether some entry is a substring of the build environment
    give the same run, line for line. The order of the entries, repeated
    entries and the number of entries that match make no difference. *)
Theorem X7_default_set_counts_through_membership
    (build_environment commit_msg : string) (defaults defaults' : list string) :
  (in_default_set build_environment defaults <->
   in_default_set build_environment defaults') ->
  should_run_job build_environment commit_msg defaults =
  should_run_job build_environment commit_msg defaults'.
Proof.
  intros Hiff. unfold should_run_job, select.
  change (default_loop build_environment defaults ;;
          print ("Rejecting " ++ build_environment) ;; sys_exit 1%Z)
    with (fallback build_environment defaults).
  change (default_loop build_environment defaults' ;;
          print ("Rejecting " ++ build_environment) ;; sys_exit 1%Z)
    with (fallback build_environment defaults').
  rewrite !fallback_spec.
  rewrite <- !in_default_set_reflect in Hiff.
  destruct (in_default_setb build_environment defaults),
    (in_default_setb build_environment defaults'); try reflexivity.
  - destruct Hiff as [H _]. discriminate (H eq_refl).
  - destruct Hiff as [_ H]. discriminate (H eq_refl).
Qed.

Lemma X7_witness :
  (in_default_set "caffe2-py2-mkl-ubuntu16.04-build" default_set <->
   in_default_set "caffe2-py2-mkl-ubuntu16.04-build"
     ["ubuntu16.04"; "caffe2"; "caffe2"]) /\
  should_run_job "caffe2-py2-mkl-ubuntu16.04-build" "fix" default_set =
  should_run_job "caffe2-py2-mkl-ubuntu16.04-build" "fix"
    ["ubuntu16.04"; "caffe2"; "caffe2"].
Proof.
  assert (H : in_default_set "caffe2-py2-mkl-ubuntu16.04-build" default_set
              <->
              in_default_set "caffe2-py2-mkl-ubuntu16.04-build"
                ["ubuntu16.04"; "caffe2"; "caffe2"]).
  { rewrite <- !in_default_set_reflect. vm_compute. split; reflexivity. }
  split; [exact H |].
  apply (X7_default_set_counts_through_membership
           "caffe2-py2-mkl-ubuntu16.04-build" "fix" default_set
           ["ubuntu16.04"; "caffe2"; "caffe2"] H).
Defined.

(** ** The loop body on a match *)

(** X8. On a match that [finditer] returns a group is never the empty
    string, so the truth tests of the loop body are presence tests: with
    both groups the marker is reported; with one group, that group is the
    payload, which accepts the job when it is a substring of the build
    environment or the word [all] and does nothing otherwise; with no group
    the payload is [None] and the body raises [TypeError]. *)
Theorem X8_loop_body_by_groups
    (build_environment commit_msg : string) (m : rematch) :
  In m (finditer RE_MARKER commit_msg) ->
  group1 m <> Some "" /\ group2 m <> Some "" /\
  marker_body build_environment m =
  match group1 m, group2 m with
  | Some _, Some _ => print ("Unrecognized marker: " ++ group0 m)
  | None, None => raise TypeError
  | Some spec, None | None, Some spec =>
      if Py.str_in spec build_environment || String.eqb spec "all"
      then print ("Accepting " ++ build_environment
                    ++ " due to commit marker " ++ group0 m) ;;
           sys_exit 0%Z
      else ret tt
  end.
Proof.
  intros Hin. apply finditer_marker in Hin. destruct Hin as [Hshape _].
  pose proof (classify_marker build_environment m Hshape) as Hk.
  destruct Hshape as [_ [_ [_ [H1 H2]]]].
  split; [| split].
  - intros E. rewrite E in H1. destruct H1 as [H _]. contradiction H.
    reflexivity.
  - intros E. rewrite E in H2. destruct H2 as [H _]. contradiction H.
    reflexivity.
  - rewrite marker_body_classify, Hk.
    destruct (group1 m) as [p |], (group2 m) as [q |]; try reflexivity;
      destruct (_ || _); reflexivity.
Qed.

Lemma X8_witness :
  In (MkMatch "[ci foo]" None (Some "foo"))
     (finditer RE_MARKER "try [ci foo]") /\
  marker_body "pytorch-foo-bar" (MkMatch "[ci foo]" None (Some "foo")) =
    (["Accepting pytorch-foo-bar due to commit marker [ci foo]"],
     Raised (SystemExit 0)).
Proof.
  assert (Hin : In (MkMatch "[ci foo]" None (Some "foo"))
                   (finditer RE_MARKER "try [ci foo]"))
    by (vm_compute; left; reflexivity).
  split; [exact Hin |].
  destruct (X8_loop_body_by_groups "pytorch-foo-bar" "try [ci foo]" _ Hin)
    as [_ [_ H]].
  rewrite H. reflexivity.
Defined.

(** ** The texts [[ci]] and [[test]] *)

(** X9. The run raises [TypeError] only on a message in which the text
    [[ci]] or [[test]] occurs; and on such a message the default set is
    never reached: either a marker accepts the job or the run raises
    [TypeError], so the job is never rejected and never accepted through
    the default set. *)
Theorem X9_bare_text_and_TypeError
    (build_environment commit_msg : string) (defaults : list string) :
  (crashed (should_run_job build_environment commit_msg defaults) ->
   Py.str_in "[ci]" commit_msg = true \/
   Py.str_in "[test]" commit_msg = true) /\
  (Py.str_in "[ci]" commit_msg = true \/
   Py.str_in "[test]" commit_msg = true ->
   (accepted (should_run_job build_environment commit_msg defaults) /\
    exists m, In m (finditer RE_MARKER commit_msg) /\
              marker_accepts build_environment m) \/
   crashed (should_run_job build_environment commit_msg defaults)).
Proof.
  split.
  - apply crash_needs_bare_marker.
  - apply bare_marker_blocks_default_set.
Qed.

Lemma X9_witness :
  crashed (should_run_job "pytorch-doc-push" "wip [test]" default_set) /\
  Py.str_in "[test]" "wip [test]" = true /\
  Py.str_in "[ci]" "[all ci] then [ci]" = true /\
  accepted (should_run_job "pytorch-doc-push" "[all ci] then [ci]" []).
Proof.
  assert (Hcrash : crashed
            (should_run_job "pytorch-doc-push" "wip [test]" default_set))
    by (vm_compute; reflexivity).
  split; [exact Hcrash | split; [reflexivity | split; [reflexivity |]]].
  destruct (proj1 (X9_bare_text_and_TypeError
                     "pytorch-doc-push" "wip [test]" default_set) Hcrash)
    as [_ | _];
  destruct (proj2 (X9_bare_text_and_TypeError
                     "pytorch-doc-push" "[all ci] then [ci]" [])
              (or_introl eq_refl)) as [[Hacc _] | Hc];
    try exact Hacc; vm_compute in Hc; discriminate Hc.
Defined.

(** ** The matcher on the pieces of the pattern *)

Lemma append_empty_r (a : string) : a ++ "" = a.
Proof. induction a as [| x a IH]; cbn; [| rewrite IH]; reflexivity. Qed.

Lemma RE_MARKER_pieces :
  RE_MARKER = Seq (One (Lit "[")) (Seq OPEN (Seq TOKEN CLOSE)).
Proof. reflexivity. Qed.

(** A greedy run followed by something that cannot start with a character
    of the run takes the whole run or fails. *)
Lemma plus_committed {R} (i : item) (p r : string) (mk : marks)
    (k : cont R) :
  (forall t c s m, admits i c = true -> k t (String c s) m = None) ->
  p <> "" -> all_chars (admits i) p = true -> stops i r ->
  plus i (p ++ r) mk k = k p r mk.
Proof.
  revert k. induction p as [| c p IH]; intros k Hk Hne Hall Hr;
    [contradiction Hne; reflexivity |].
  cbn [all_chars] in Hall. apply andb_true_iff in Hall.
  destruct Hall as [Hc Hall]. cbn [append plus]. rewrite Hc.
  destruct p as [| d p].
  - cbn [append]. destruct r as [| e r]; cbn [plus].
    + reflexivity.
    + cbn in Hr. rewrite Hr. reflexivity.
  - rewrite IH; [| | discriminate | exact Hall | exact Hr].
    + destruct (k (String c (String d p)) r mk) eqn:E; [reflexivity |].
      cbn [all_chars] in Hall. apply andb_true_iff in Hall.
      cbn [append]. apply Hk, Hall.
    + intros t e s m He. apply Hk, He.
Qed.

Lemma run_word (R : Type) (w s : string) (mk : marks) (k : cont R) :
  run (word w) s mk k =
  match strip w s with
  | Some s' => k w s' mk
  | None => None
  end.
Proof.
  revert s k. induction w as [| c w IH]; intros s k; cbn [word run strip].
  - reflexivity.
  - destruct s as [| d s]; [reflexivity |]. cbn [admits].
    destruct (Ascii.eqb_spec d c) as [-> | _]; [| reflexivity].
    rewrite IH. reflexivity.
Qed.

Lemma payload_char_spec (c : ascii) :
  admits payload_char c = true <->
  c <> " "%char /\ c <> "["%char /\ c <> "]"%char.
Proof.
  cbn. rewrite negb_true_iff, !orb_false_iff.
  rewrite !Ascii.eqb_neq. tauto.
Qed.

(** What follows the token, on a closing bracket. *)
Lemma CLOSE_bracket (R : Type) (rest : string) (mk : marks) (k : cont R) :
  run CLOSE (String "]" rest) mk k = k "]" rest mk.
Proof. reflexivity. Qed.

(** What follows the token, on a space, a payload and a closing bracket. *)
Lemma CLOSE_payload (R : Type) (q rest : string) (mk : marks) (k : cont R) :
  payload q ->
  run CLOSE (String " " (q ++ String "]" rest)) mk k =
  k (String " " (q ++ "]")) rest (set_mark 2 q mk).
Proof.
  intros [Hne Hall]. unfold CLOSE. cbn [run admits Ascii.eqb Bool.eqb].
  rewrite plus_committed; [| | exact Hne | exact Hall | reflexivity].
  - cbn [run admits Ascii.eqb Bool.eqb].
    cbn [append].
    match goal with
    | |- context [k ?a ?b ?c] => destruct (k a b c)
    end; reflexivity.
  - intros t c s m Hc. cbn [run admits].
    apply payload_char_spec in Hc. destruct Hc as [_ [_ Hc]].
    apply Ascii.eqb_neq in Hc. rewrite Hc. reflexivity.
Qed.

(** What follows the token fails on anything else. *)
Lemma CLOSE_fails (R : Type) (s : string) (mk : marks) (k : cont R) :
  match s with
  | EmptyString => True
  | String c _ => c <> " "%char /\ c <> "]"%char
  end ->
  run CLOSE s mk k = None.
Proof.
  destruct s as [| c s]; [reflexivity |]. intros [Hsp Hbr].
  apply Ascii.eqb_neq in Hsp, Hbr. unfold CLOSE. cbn [run admits].
  rewrite Hsp, Hbr. reflexivity.
Qed.

Lemma strip_payload (w p rest s' : string) :
  all_chars (admits payload_char) w = true ->
  all_chars (admits payload_char) p = true ->
  strip w (p ++ String "]" rest) = Some s' ->
  exists p', p = w ++ p' /\ s' = p' ++ String "]" rest.
Proof.
  revert p. induction w as [| c w IH]; intros p Hw Hp; cbn [strip].
  - intros [= <-]. exists p. split; reflexivity.
  - cbn [all_chars] in Hw. apply andb_true_iff in Hw. destruct Hw as [Hc Hw].
    destruct p as [| d p]; cbn [append].
    + apply payload_char_spec in Hc. destruct Hc as [_ [_ Hc]].
      destruct (Ascii.eqb_spec "]" c) as [E | _]; [| discriminate].
      contradiction Hc. symmetry. exact E.
    + cbn [all_chars] in Hp. apply andb_true_iff in Hp.
      destruct Hp as [_ Hp].
      destruct (Ascii.eqb_spec d c) as [-> | _]; [| discriminate].
      intros H. destruct (IH p Hw Hp H) as [p' [-> ->]].
      exists p'. split; reflexivity.
Qed.

(** A token read at the start of a payload that goes on leads nowhere. *)
Lemma token_in_payload_fails (R : Type) (w p rest : string) (mk : marks)
    (k : cont R) :
  all_chars (admits payload_char) w = true ->
  all_chars (admits payload_char) p = true ->
  p <> w ->
  run (word w) (p ++ String "]" rest) mk
      (fun t1 s1 m1 => run CLOSE s1 m1 (fun t2 s2 m2 => k (t1 ++ t2) s2 m2))
  = None.
Proof.
  intros Hw Hp Hne. rewrite run_word.
  destruct (strip w (p ++ String "]" rest)) as [s' |] eqn:Hs; [| reflexivity].
  destruct (strip_payload w p rest s' Hw Hp Hs) as [p' [-> ->]].
  apply CLOSE_fails. destruct p' as [| c p'].
  - contradiction Hne. apply append_empty_r.
  - rewrite all_chars_app in Hp. apply andb_true_iff in Hp.
    destruct Hp as [_ Hp]. cbn [all_chars] in Hp.
    apply andb_true_iff in Hp. destruct Hp as [Hc _].
    apply payload_char_spec in Hc. cbn [append]. tauto.
Qed.

(** ** The matcher computes the parser *)

Lemma span_spec (f : ascii -> bool) (s : string) :
  s = fst (span f s) ++ snd (span f s) /\
  all_chars f (fst (span f s)) = true /\
  match snd (span f s) with
  | EmptyString => True
  | String c _ => f c = false
  end.
Proof.
  induction s as [| c s IH]; cbn [span]; [repeat split |].
  destruct (f c) eqn:Hc.
  - destruct (span f s) as [p r]. cbn [fst snd] in *.
    destruct IH as [Hs [Hall Hr]].
    cbn [append all_chars]. rewrite <- Hs, Hc, Hall. repeat split. exact Hr.
  - cbn [fst snd append all_chars]. repeat split. exact Hc.
Qed.

Lemma plus_stops {R} (i : item) (s : string) (mk : marks) (k : cont R) :
  stops i s -> plus i s mk k = None.
Proof.
  destruct s as [| c s]; [reflexivity |]. cbn. intros ->. reflexivity.
Qed.

Lemma run_CLOSE (R : Type) (s : string) (mk : marks) (k : cont R) :
  run CLOSE s mk k =
  match close_at s with
  | Some (t, g2, rest) => k t rest (close_marks g2 mk)
  | None => None
  end.
Proof.
  destruct s as [| c s]; [reflexivity |]. unfold close_at.
  destruct (Ascii.eqb_spec c "]") as [-> | Hbr]; [reflexivity |].
  destruct (Ascii.eqb_spec c " ") as [-> | Hsp];
    [| apply CLOSE_fails; split; assumption].
  destruct (span_spec (admits payload_char) s) as [Hs [Hall Hr]].
  destruct (span (admits payload_char) s) as [q r]. cbn [fst snd] in *.
  subst s. destruct q as [| a q].
  - cbn [append]. unfold CLOSE. cbn [run admits Ascii.eqb Bool.eqb].
    rewrite plus_stops by exact Hr. reflexivity.
  - destruct r as [| d rest].
    + unfold CLOSE. cbn [run admits Ascii.eqb Bool.eqb].
      rewrite plus_committed;
        [reflexivity | | discriminate | exact Hall | exact I].
      intros t e s m He. cbn [run admits].
      apply payload_char_spec in He. destruct He as [_ [_ He]].
      apply Ascii.eqb_neq in He. rewrite He. reflexivity.
    + destruct (Ascii.eqb_spec d "]") as [-> | Hd].
      * apply (CLOSE_payload R (String a q) rest mk k).
        split; [discriminate | exact Hall].
      * unfold CLOSE. cbn [run admits Ascii.eqb Bool.eqb].
        rewrite plus_committed;
          [| | discriminate | exact Hall | exact Hr].
        -- cbn [run admits]. apply Ascii.eqb_neq in Hd. rewrite Hd.
           reflexivity.
        -- intros t e s m He. cbn [run admits].
           apply payload_char_spec in He. destruct He as [_ [_ He]].
           apply Ascii.eqb_neq in He. rewrite He. reflexivity.
Qed.

Lemma run_word_CLOSE (R : Type) (w s : string) (mk : marks) (k : cont R) :
  run (word w) s mk
      (fun t1 s1 m1 => run CLOSE s1 m1 (fun t2 s2 m2 => k (t1 ++ t2) s2 m2))
  = match word_close_at w s with
    | Some (t, g2, rest) => k t rest (close_marks g2 mk)
    | None => None
    end.
Proof.
  rewrite run_word. unfold word_close_at.
  destruct (strip w s) as [s' |]; [| reflexivity].
  rewrite run_CLOSE. destruct (close_at s') as [[[t g2] rest] |]; reflexivity.
Qed.

Lemma ci_excludes_test (s : string) :
  word_close_at "ci" s <> None -> word_close_at "test" s = None.
Proof.
  unfold word_close_at. destruct s as [| c s]; [reflexivity |].
  cbn [strip]. destruct (Ascii.eqb_spec c "c") as [-> | _].
  - reflexivity.
  - intros H. contradiction H. reflexivity.
Qed.

Lemma run_TOKEN_CLOSE (R : Type) (s : string) (mk : marks) (k : cont R) :
  run (Seq TOKEN CLOSE) s mk k =
  match token_at s with
  | Some (t, g2, rest) => k t rest (close_marks g2 mk)
  | None => None
  end.
Proof.
  unfold TOKEN, token_at. cbn [run]. fold (word "ci") (word "test").
  change (run (Seq (One (Lit "c")) (Seq (One (Lit "i")) Eps)))
    with (run (R := R) (word "ci")).
  change (run (Seq (One (Lit "t")) (Seq (One (Lit "e"))
                 (Seq (One (Lit "s")) (Seq (One (Lit "t")) Eps)))))
    with (run (R := R) (word "test")).
  rewrite !run_word_CLOSE.
  destruct (word_close_at "ci" s) as [[[t g2] rest] |] eqn:Hci;
    [| reflexivity].
  rewrite (ci_excludes_test s) by (rewrite Hci; discriminate).
  destruct (k t rest (close_marks g2 mk)); reflexivity.
Qed.

Lemma close_marks_1 (g2 : option string) (mk : marks) :
  close_marks g2 mk 1 = mk 1.
Proof. destruct g2; reflexivity. Qed.

Lemma close_marks_2 (g2 : option string) (mk : marks) :
  mk 2 = None -> close_marks g2 mk 2 = g2.
Proof. destruct g2; [reflexivity | intros H; exact H]. Qed.

(** On every input the matcher returns what the parser reads. *)
Lemma match_at_marker_at (s : string) :
  match_at RE_MARKER s = marker_at s.
Proof.
  destruct s as [| c s0]; [reflexivity |].
  unfold match_at, marker_at. rewrite RE_MARKER_pieces.
  cbn [run admits]. destruct (Ascii.eqb_spec c "[") as [-> | _];
    [| reflexivity].
  change (run (R := rematch) (Alt (word "ci") (word "test"))) with
    (run (R := rematch) TOKEN).
  set (K1 := fun (t1 s1 : string) (m1 : marks) =>
               run TOKEN s1 m1
                 (fun t2 s2 m2 => run CLOSE s2 m2
                    (fun t3 s3 m3 =>
                       Some (MkMatch ("[" ++ t1 ++ t2 ++ t3) (m3 1) (m3 2))))).
  assert (HK1 : forall t1 s1 m1,
            m1 2 = None ->
            K1 t1 s1 m1 =
            match token_at s1 with
            | Some (t, g2, _) => Some (MkMatch ("[" ++ t1 ++ t) (m1 1) g2)
            | None => None
            end).
  { intros t1 s1 m1 Hm. unfold K1.
    change (run TOKEN s1 m1 _) with
      (run (Seq TOKEN CLOSE) s1 m1
         (fun t _ m => Some (MkMatch ("[" ++ t1 ++ t) (m 1) (m 2)))).
    rewrite run_TOKEN_CLOSE.
    destruct (token_at s1) as [[[t g2] rest] |]; [| reflexivity].
    rewrite close_marks_1, (close_marks_2 _ _ Hm). reflexivity. }
  destruct (span_spec (admits payload_char) s0) as [Hs [Hall Hr]].
  destruct (span (admits payload_char) s0) as [p r] eqn:Hspan.
  cbn [fst snd] in *.
  assert (Hattempt :
    plus payload_char s0 no_marks
      (fun t s' m =>
         match s' with
         | EmptyString => None
         | String d s'' =>
             if Ascii.eqb d " "
             then K1 (t ++ String d "") s'' (set_mark 1 t m)
             else None
         end)
    = match p, r with
      | String _ _, String d r' =>
          if Ascii.eqb d " " then
            match token_at r' with
            | Some (t, g2, _) =>
                Some (MkMatch ("[" ++ p ++ " " ++ t) (Some p) g2)
            | None => None
            end
          else None
      | _, _ => None
      end).
  { rewrite Hs. destruct p as [| a p].
    - cbn [append]. apply plus_stops. exact Hr.
    - rewrite plus_committed;
        [| | discriminate | exact Hall | exact Hr].
      + destruct r as [| d r']; [reflexivity |].
        destruct (Ascii.eqb_spec d " ") as [-> | _]; [| reflexivity].
        rewrite HK1 by reflexivity.
        destruct (token_at r') as [[[t g2] rest] |]; [| reflexivity].
        rewrite append_assoc. reflexivity.
      + intros t e s m He. apply payload_char_spec in He.
        destruct He as [He _]. apply Ascii.eqb_neq in He. rewrite He.
        reflexivity. }
  unfold OPEN. cbn [run admits].
  rewrite Hattempt, HK1 by reflexivity.
  reflexivity.
Qed.

(** ** Markers in prefix and in suffix form *)

Lemma span_app (f : ascii -> bool) (p r : string) :
  all_chars f p = true ->
  match r with
  | EmptyString => True
  | String c _ => f c = false
  end ->
  span f (p ++ r) = (p, r).
Proof.
  intros Hp Hr. induction p as [| c p IH]; cbn [append].
  - destruct r as [| d r]; cbn [span]; [reflexivity |]. rewrite Hr.
    reflexivity.
  - cbn [all_chars] in Hp. apply andb_true_iff in Hp. destruct Hp as [Hc Hp].
    cbn [span]. rewrite Hc, (IH Hp). reflexivity.
Qed.

Lemma token_at_close (w rest : string) :
  is_token w ->
  token_at (w ++ String "]" rest) = Some (w ++ "]", None, rest).
Proof. intros [-> | ->]; reflexivity. Qed.

Lemma token_at_suffix (w p rest : string) :
  is_token w -> payload p ->
  token_at (w ++ String " " (p ++ String "]" rest)) =
  Some (w ++ String " " (p ++ "]"), Some p, rest).
Proof.
  intros Hw [Hne Hall].
  assert (Hclose : close_at (String " " (p ++ String "]" rest)) =
                   Some (String " " (p ++ "]"), Some p, rest)).
  { unfold close_at. cbn [Ascii.eqb Bool.eqb].
    rewrite (span_app _ p (String "]" rest) Hall) by reflexivity.
    destruct p as [| c p]; [contradiction Hne; reflexivity | reflexivity]. }
  destruct Hw as [-> | ->]; unfold token_at, word_close_at;
    cbn [strip append Ascii.eqb Bool.eqb]; rewrite Hclose; reflexivity.
Qed.

Lemma word_close_at_payload (w p rest : string) :
  all_chars (admits payload_char) w = true ->
  all_chars (admits payload_char) p = true ->
  p <> w ->
  word_close_at w (p ++ String "]" rest) = None.
Proof.
  intros Hw Hp Hne. unfold word_close_at.
  destruct (strip w (p ++ String "]" rest)) as [s' |] eqn:Hs; [| reflexivity].
  destruct (strip_payload w p rest s' Hw Hp Hs) as [p' [-> ->]].
  destruct p' as [| c p'].
  - contradiction Hne. apply append_empty_r.
  - rewrite all_chars_app in Hp. apply andb_true_iff in Hp.
    destruct Hp as [_ Hp]. cbn [all_chars] in Hp.
    apply andb_true_iff in Hp. destruct Hp as [Hc _].
    apply payload_char_spec in Hc. destruct Hc as [Hsp [_ Hbr]].
    apply Ascii.eqb_neq in Hsp, Hbr. cbn [append close_at].
    rewrite Hbr, Hsp. reflexivity.
Qed.

(** A payload that is not itself a token does not start a marker body. *)
Lemma token_at_payload (p rest : string) :
  payload p -> ~ is_token p ->
  token_at (p ++ String "]" rest) = None.
Proof.
  intros [_ Hall] Hno. unfold token_at.
  rewrite !word_close_at_payload; try reflexivity; try exact Hall;
    intros E; apply Hno; [right | left]; exact E.
Qed.

Lemma match_at_prefix_form (p w rest : string) :
  payload p -> is_token w ->
  match_at RE_MARKER
    (String "[" (p ++ String " " (w ++ String "]" rest))) =
  Some (MkMatch (String "[" (p ++ String " " (w ++ "]"))) (Some p) None).
Proof.
  intros [Hne Hall] Hw. rewrite match_at_marker_at. unfold marker_at.
  cbn [Ascii.eqb Bool.eqb].
  rewrite (span_app _ p _ Hall) by reflexivity.
  destruct p as [| c p]; [contradiction Hne; reflexivity |].
  cbn [Ascii.eqb Bool.eqb]. rewrite (token_at_close w rest Hw).
  reflexivity.
Qed.

Lemma match_at_suffix_form (w p rest : string) :
  is_token w -> payload p -> ~ is_token p ->
  match_at RE_MARKER
    (String "[" (w ++ String " " (p ++ String "]" rest))) =
  Some (MkMatch (String "[" (w ++ String " " (p ++ "]"))) None (Some p)).
Proof.
  intros Hw Hp Hno. rewrite match_at_marker_at. unfold marker_at.
  cbn [Ascii.eqb Bool.eqb].
  assert (Hspan : span (admits payload_char)
                    (w ++ String " " (p ++ String "]" rest)) =
                  (w, String " " (p ++ String "]" rest))).
  { apply span_app; [destruct Hw as [-> | ->]; reflexivity | reflexivity]. }
  rewrite Hspan, (token_at_payload p rest Hp Hno),
    (token_at_suffix w p rest Hw Hp).
  destruct Hw as [-> | ->]; reflexivity.
Qed.

(** ** An opening bracket cuts the message *)

Lemma span_cut (f : ascii -> bool) (s x : string) :
  f "["%char = false ->
  span f (s ++ String "[" x) =
  (fst (span f s), snd (span f s) ++ String "[" x).
Proof.
  intros Hf. induction s as [| c s IH]; cbn [append span].
  - rewrite Hf. reflexivity.
  - destruct (f c); [| reflexivity].
    rewrite IH. destruct (span f s). reflexivity.
Qed.

Lemma strip_cut (w s x : string) :
  all_chars not_open w = true ->
  strip w (s ++ String "[" x) =
  option_map (fun s' => s' ++ String "[" x) (strip w s).
Proof.
  revert s. induction w as [| c w IH]; intros s Hw; [reflexivity |].
  cbn [all_chars] in Hw. apply andb_true_iff in Hw. destruct Hw as [Hc Hw].
  destruct s as [| d s]; cbn [append strip].
  - unfold not_open in Hc. apply negb_true_iff in Hc.
    rewrite Ascii.eqb_sym, Hc. reflexivity.
  - destruct (Ascii.eqb d c); [apply IH, Hw | reflexivity].
Qed.

Lemma close_at_cut (s x : string) :
  close_at (s ++ String "[" x) =
  option_map (extend (String "[" x)) (close_at s).
Proof.
  destruct s as [| c s]; [reflexivity |]. cbn [append close_at].
  destruct (Ascii.eqb c "]"); [reflexivity |].
  destruct (Ascii.eqb c " "); [| reflexivity].
  rewrite span_cut by reflexivity.
  destruct (span (admits payload_char) s) as [q r]. cbn [fst snd].
  destruct q as [| a q]; [reflexivity |].
  destruct r as [| d r]; [reflexivity |]. cbn [append].
  destruct (Ascii.eqb d "]"); reflexivity.
Qed.

Lemma word_close_at_cut (w s x : string) :
  all_chars not_open w = true ->
  word_close_at w (s ++ String "[" x) =
  option_map (extend (String "[" x)) (word_close_at w s).
Proof.
  intros Hw. unfold word_close_at. rewrite (strip_cut w s x Hw).
  destruct (strip w s) as [s' |]; [| reflexivity]. cbn [option_map].
  rewrite close_at_cut.
  destruct (close_at s') as [[[t g2] rest] |]; reflexivity.
Qed.

Lemma token_at_cut (s x : string) :
  token_at (s ++ String "[" x) =
  option_map (extend (String "[" x)) (token_at s).
Proof.
  unfold token_at. rewrite !word_close_at_cut by reflexivity.
  destruct (word_close_at "ci" s) as [[[t g2] rest] |]; reflexivity.
Qed.

(** What follows an opening bracket plays no part in a match that starts
    before it. *)
Lemma marker_at_cut (c : ascii) (s x : string) :
  marker_at (String c s ++ String "[" x) = marker_at (String c s).
Proof.
  cbn [append marker_at]. destruct (Ascii.eqb c "["); [| reflexivity].
  rewrite span_cut by reflexivity. rewrite token_at_cut.
  destruct (span (admits payload_char) s) as [p r]. cbn [fst snd].
  destruct p as [| a p].
  - destruct (token_at s) as [[[t g2] rest] |]; reflexivity.
  - destruct r as [| d r]; cbn [append Ascii.eqb Bool.eqb].
    + destruct (token_at s) as [[[t g2] rest] |]; reflexivity.
    + destruct (Ascii.eqb d " ").
      * rewrite token_at_cut.
        destruct (token_at r) as [[[t1 g1] rest1] |];
          destruct (token_at s) as [[[t g2] rest] |]; reflexivity.
      * destruct (token_at s) as [[[t g2] rest] |]; reflexivity.
Qed.

Lemma string_length_app (a b : string) :
  String.length (a ++ b) = String.length a + String.length b.
Proof. induction a as [| x a IH]; cbn; [| rewrite IH]; reflexivity. Qed.

Lemma scan_cut (a x : string) (skip : nat) :
  skip <= String.length a ->
  scan RE_MARKER skip (a ++ String "[" x) =
  (scan RE_MARKER skip a ++ scan RE_MARKER 0 (String "[" x))%list.
Proof.
  revert skip. induction a as [| c a IH]; intros skip Hskip.
  - apply Nat.le_0_r in Hskip. subst skip. reflexivity.
  - destruct skip as [| skip].
    + cbn [append scan].
      change (String c (a ++ String "[" x)) with (String c a ++ String "[" x).
      rewrite (match_at_marker_at (String c a ++ String "[" x)),
        marker_at_cut, <- match_at_marker_at.
      destruct (match_at RE_MARKER (String c a)) as [m |] eqn:Hm.
      * cbn [app]. f_equal. apply IH.
        apply match_at_sound in Hm. destruct Hm as [rest [_ [Hs _]]].
        apply (f_equal String.length) in Hs. rewrite string_length_app in Hs.
        cbn [String.length] in Hs.
        destruct (String.length (group0 m)) as [| n].
        -- apply Nat.le_0_l.
        -- cbn [Nat.sub]. rewrite Nat.sub_0_r.
           injection Hs as Hs. rewrite Hs. apply Nat.le_add_r.
      * apply IH, Nat.le_0_l.
    + cbn [append scan]. apply IH. cbn [String.length] in Hskip.
      apply le_S_n, Hskip.
Qed.

(** X10. A marker may carry its payload before or after the token. In
    prefix form, [[payload ci]] or [[payload test]], any payload is read as
    group 1, wherever the marker stands in the message. In suffix form,
    [[ci payload]] or [[test payload]], the payload is read as group 2 unless
    it is itself [ci] or [test]: such a text is in prefix form, with the
    first word as payload. *)
Theorem X10_payload_before_or_after_the_token
    (p w before after : string) :
  payload p -> is_token w ->
  In (MkMatch ("[" ++ p ++ " " ++ w ++ "]") (Some p) None)
     (finditer RE_MARKER (before ++ "[" ++ p ++ " " ++ w ++ "]" ++ after)) /\
  (~ is_token p ->
   In (MkMatch ("[" ++ w ++ " " ++ p ++ "]") None (Some p))
      (finditer RE_MARKER (before ++ "[" ++ w ++ " " ++ p ++ "]" ++ after))).
Proof.
  intros Hp Hw. cbn [append]. split.
  - apply finditer_finds, match_at_prefix_form; assumption.
  - intros Hno. apply finditer_finds, match_at_suffix_form; assumption.
Qed.

Lemma X10_witness :
  payload "linux-gpu" /\ is_token "test" /\ ~ is_token "linux-gpu" /\
  In (MkMatch ("[" ++ "linux-gpu" ++ " " ++ "test" ++ "]")
        (Some "linux-gpu") None)
     (finditer RE_MARKER
        ("fix; " ++ "[" ++ "linux-gpu" ++ " " ++ "test" ++ "]" ++ " please"))
  /\
  In (MkMatch ("[" ++ "test" ++ " " ++ "linux-gpu" ++ "]")
        None (Some "linux-gpu"))
     (finditer RE_MARKER
        ("fix; " ++ "[" ++ "test" ++ " " ++ "linux-gpu" ++ "]" ++ " please")).
Proof.
  assert (Hp : payload "linux-gpu") by (split; [discriminate | reflexivity]).
  assert (Hw : is_token "test") by (right; reflexivity).
  assert (Hno : ~ is_token "linux-gpu") by (intros [E | E]; discriminate E).
  destruct (X10_payload_before_or_after_the_token
              "linux-gpu" "test" "fix; " " please" Hp Hw) as [H1 H2].
  split; [exact Hp |]. split; [exact Hw |]. split; [exact Hno |].
  split; [exact H1 | exact (H2 Hno)].
Defined.

Lemma marker_found_accepts (env before s : string) (m : rematch)
    (defaults : list string) :
  match_at RE_MARKER (String "[" s) = Some m ->
  marker_accepts env m ->
  no_bare_marker before ->
  accepted (should_run_job env (before ++ String "[" s) defaults).
Proof.
  intros Hm Hacc Hbare. unfold accepted, should_run_job.
  rewrite select_ending.
  assert (Hms : exists after,
            finditer RE_MARKER (before ++ String "[" s) =
            (finditer RE_MARKER before ++ m :: after)%list).
  { unfold finditer. rewrite scan_cut by apply Nat.le_0_l.
    cbn [scan]. rewrite Hm. eexists. reflexivity. }
  destruct Hms as [after Hms].
  assert (Hv : marker_verdict env (finditer RE_MARKER (before ++ String "[" s))
               = Some (SystemExit 0)).
  { apply marker_accept_split_iff.
    exists (finditer RE_MARKER before), m, after.
    split; [exact Hms | split; [exact Hacc |]].
    apply (Forall_not_bare env _ (finditer_shaped before)).
    apply no_bare_marker_matches, Hbare. }
  rewrite Hv. reflexivity.
Qed.

(** X11. A marker whose payload is a substring of the build environment, or
    the word [all], accepts the job wherever it stands, in prefix form or
    (for a payload that is not a token) in suffix form, provided the text
    before it holds neither [[ci]] nor [[test]]; what comes after the
    marker and the default set play no part. *)
Theorem X11_matching_marker_accepts
    (build_environment p w before after : string) (defaults : list string) :
  payload p -> is_token w ->
  Py.str_in p build_environment = true \/ p = "all" ->
  no_bare_marker before ->
  accepted (should_run_job build_environment
              (before ++ "[" ++ p ++ " " ++ w ++ "]" ++ after) defaults) /\
  (~ is_token p ->
   accepted (should_run_job build_environment
               (before ++ "[" ++ w ++ " " ++ p ++ "]" ++ after) defaults)).
Proof.
  intros Hp Hw Hmatch Hbare. cbn [append]. split.
  - apply (marker_found_accepts _ _ _ _ _
             (match_at_prefix_form p w after Hp Hw)); [| exact Hbare].
    exists p. split; [left; split; reflexivity | exact Hmatch].
  - intros Hno.
    apply (marker_found_accepts _ _ _ _ _
             (match_at_suffix_form w p after Hw Hp Hno)); [| exact Hbare].
    exists p. split; [right; split; reflexivity | exact Hmatch].
Qed.

Lemma X11_witness :
  payload "some-new-job" /\ is_token "ci" /\ ~ is_token "some-new-job" /\
  (Py.str_in "some-new-job" "some-new-job" = true \/ "some-new-job" = "all")
  /\
  no_bare_marker "wip [a ci b] " /\
  accepted (should_run_job "some-new-job"
              ("wip [a ci b] "
                 ++ "[" ++ "some-new-job" ++ " " ++ "ci" ++ "]" ++ " [ci]")
              []) /\
  accepted (should_run_job "some-new-job"
              ("wip [a ci b] "
                 ++ "[" ++ "ci" ++ " " ++ "some-new-job" ++ "]" ++ " [ci]")
              []).
Proof.
  assert (Hp : payload "some-new-job")
    by (split; [discriminate | reflexivity]).
  assert (Hw : is_token "ci") by (left; reflexivity).
  assert (Hno : ~ is_token "some-new-job")
    by (intros [E | E]; discriminate E).
  assert (Hin : Py.str_in "some-new-job" "some-new-job" = true \/
                "some-new-job" = "all") by (left; reflexivity).
  assert (Hbare : no_bare_marker "wip [a ci b] ") by (split; reflexivity).
  destruct (X11_matching_marker_accepts
              "some-new-job" "some-new-job" "ci" "wip [a ci b] " " [ci]" []
              Hp Hw Hin Hbare) as [H1 H2].
  split; [exact Hp |]. split; [exact Hw |]. split; [exact Hno |].
  split; [exact Hin |]. split; [exact Hbare |].
  split; [exact H1 | exact (H2 Hno)].
Defined.

(** X12. An opening bracket cuts the message for [finditer]: the markers
    of a message are the markers of the text before the bracket followed by
    the markers of the text from the bracket on, since no match extends
    over an opening bracket. *)
Theorem X12_finditer_splits_at_an_opening_bracket (a x : string) :
  finditer RE_MARKER (a ++ "[" ++ x) =
  (finditer RE_MARKER a ++ finditer RE_MARKER ("[" ++ x))%list.
Proof. apply scan_cut, Nat.le_0_l. Qed.
